(** * vyos.utils.system: the sysctl gateway and the small system probes

    A shallow embedding of [python/vyos/utils/system.py].  The module is a
    set of wrappers around operating-system facilities, so every function
    is a program over the calls it makes to the outside world
    ([subprocess.run], [read_file], [get_core_count], [is_uefi_system],
    [cmd]).  Programs are trees of such calls; [exec] runs a tree against
    any model of the outside world and logs the calls that were made. *)

From Equations Require Import Equations.
From Stdlib Require Import List ZArith NArith Bool String Ascii Lia.
From Stdlib Require Import DecimalString DecimalZ.
From Stdlib Require Import Floats.SpecFloat.
Import ListNotations.

Set Implicit Arguments.
Local Open Scope Z_scope.

(** ** Python values *)

Module Py.

(** A Python [str] is a sequence of Unicode code points. *)
Definition str := list N.

(** A [str] literal whose characters are all ASCII. *)
Definition u (s : string) : str :=
  List.map N_of_ascii (list_ascii_of_string s).

(** [a == b] on [str]. *)
Fixpoint str_eqb (a b : str) : bool :=
  match a, b with
  | [], [] => true
  | x :: a', y :: b' => N.eqb x y && str_eqb a' b'
  | _, _ => false
  end.

(** A Python [bytes] object. *)
Definition bytes := list Byte.byte.

(** The exceptions that can travel through this module. *)
Inductive exn : Type :=
| FileNotFoundError
| PermissionError
| OSError
| CalledProcessError (returncode : Z)
| UnicodeDecodeError
| AttributeError
| TypeError
| ValueError
| IndexError
| ZeroDivisionError
| OverflowError.

(** The argument of [sysctl_write]: [str | int]. *)
Inductive value : Type :=
| VStr (s : str)
| VInt (n : Z).

(** [str(n)] for an [int]: the decimal digits, with a leading minus sign
    for negative numbers. *)
Definition str_of_int (n : Z) : str :=
  u (NilZero.string_of_int (Z.to_int n)).

(** [value if isinstance(value, str) else str(value)] *)
Definition to_str (value : value) : str :=
  match value with
  | VInt n => str_of_int n
  | VStr s => s
  end.

(** *** [bytes.decode()]: strict UTF-8 *)

Definition is_cont (b : N) : bool := (128 <=? b)%N && (b <=? 191)%N.

Definition cont_bits (b : N) : N := N.land b 63.

Fixpoint utf8_decode (bs : list N) : option str :=
  match bs with
  | [] => Some []
  | b0 :: r0 =>
    if (b0 <? 128)%N then option_map (cons b0) (utf8_decode r0)
    else if (b0 <? 194)%N then None
    else if (b0 <? 224)%N then
      match r0 with
      | b1 :: r1 =>
        if is_cont b1
        then option_map (cons (N.land b0 31 * 64 + cont_bits b1)%N)
                        (utf8_decode r1)
        else None
      | _ => None
      end
    else if (b0 <? 240)%N then
      match r0 with
      | b1 :: b2 :: r2 =>
        if is_cont b1 && is_cont b2
           && negb ((b0 =? 224)%N && (b1 <? 160)%N)
           && negb ((b0 =? 237)%N && (160 <=? b1)%N)
        then option_map
               (cons (N.land b0 15 * 4096 + cont_bits b1 * 64 + cont_bits b2)%N)
               (utf8_decode r2)
        else None
      | _ => None
      end
    else if (b0 <? 245)%N then
      match r0 with
      | b1 :: b2 :: b3 :: r3 =>
        if is_cont b1 && is_cont b2 && is_cont b3
           && negb ((b0 =? 240)%N && (b1 <? 144)%N)
           && negb ((b0 =? 244)%N && (144 <=? b1)%N)
        then option_map
               (cons (N.land b0 7 * 262144 + cont_bits b1 * 4096
                      + cont_bits b2 * 64 + cont_bits b3)%N)
               (utf8_decode r3)
        else None
      | _ => None
      end
    else None
  end.

Definition decode (b : bytes) : option str :=
  utf8_decode (List.map Byte.to_N b).

(** The bytes of an ASCII literal. *)
Definition b (s : string) : bytes :=
  List.map byte_of_ascii (list_ascii_of_string s).

(** *** [dict]: insertion-ordered, one entry per key *)

(** [==] on the keys of a dictionary. *)
Class Hashable (K : Type) : Type := key_eqb : K -> K -> bool.
#[export] Instance str_hashable : Hashable str := str_eqb.
#[export] Instance int_hashable : Hashable Z := Z.eqb.

Definition dict (K V : Type) := list (K * V).

(** [d[k] = v]: an existing key keeps its place, a new key goes last. *)
Fixpoint setitem {K V} `{Hashable K} (d : dict K V) (k : K) (v : V)
  : dict K V :=
  match d with
  | [] => [(k, v)]
  | (k', v') :: d' =>
    if key_eqb k' k then (k', v) :: d' else (k', v') :: setitem d' k v
  end.

Definition keys {K V} (d : dict K V) : list K := List.map fst d.
Definition items {K V} (d : dict K V) : list (K * V) := d.

(** [subprocess.CompletedProcess]; [stdout] is [None] unless captured. *)
Record CompletedProcess : Type := mkCompleted {
  returncode : Z;
  stdout : option bytes;
}.

End Py.
Import Py.

(** ** Programs over the outside world *)

(** The calls that leave the module, indexed by what they answer. *)
Inductive call : Type -> Type :=
| spawn (args : list str) (capture_output : bool) : call CompletedProcess
| read_file (path : str) : call str
| get_core_count : call Z
| is_uefi_system : call bool
| cmd (command : str) : call str.

Inductive prog (A : Type) : Type :=
| Ret (a : A)
| Raise (e : exn)
| Vis (X : Type) (c : call X) (k : X -> prog A).

Arguments Ret {A} a.
Arguments Raise {A} e.
Arguments Vis {A X} c k.

Fixpoint bind {A B} (p : prog A) (f : A -> prog B) : prog B :=
  match p with
  | Ret a => f a
  | Raise e => Raise e
  | Vis c k => Vis c (fun x => bind (k x) f)
  end.

Definition trigger {X} (c : call X) : prog X := Vis c (fun x => Ret x).

Declare Scope prog_scope.
Delimit Scope prog_scope with prog.
Notation "x <- p ;; q" := (bind p (fun x => q))
  (at level 61, p at next level, right associativity) : prog_scope.
Notation "p ;; q" := (bind p (fun _ => q))
  (at level 61, right associativity) : prog_scope.
Local Open Scope prog_scope.

(** [for x in xs: s = body(x, s)] *)
Fixpoint for_in {X S} (xs : list X) (body : X -> S -> prog S) (s : S)
  : prog S :=
  match xs with
  | [] => Ret s
  | x :: xs' => s' <- body x s ;; for_in xs' body s'
  end.

(** [for x in xs: body(x)] where the body may [return]: [Some r] is a
    [return r] inside the loop, [None] falls through to the next round;
    [after] is the code that follows the loop. *)
Fixpoint for_in_return {X R} (xs : list X) (body : X -> prog (option R))
    (after : prog R) : prog R :=
  match xs with
  | [] => after
  | x :: xs' =>
    r <- body x ;;
    match r with
    | Some v => Ret v
    | None => for_in_return xs' body after
    end
  end.

(** *** Running a program *)

Inductive outcome (A : Type) : Type :=
| Returned (a : A)
| Raised (e : exn).
Arguments Returned {A} a.
Arguments Raised {A} e.

(** One entry of the log of calls. *)
Inductive logged : Type :=
| Called (X : Type) (c : call X).
Arguments Called {X} c.

Section Exec.
Variable World : Type.
(** The outside world answers a call or raises, and moves on. *)
Variable handler : forall X, call X -> World -> outcome X * World.

Fixpoint exec {A} (p : prog A) (w : World)
  : outcome A * World * list logged :=
  match p with
  | Ret a => (Returned a, w, [])
  | Raise e => (Raised e, w, [])
  | Vis c k =>
    match handler c w with
    | (Returned x, w') =>
      let '(o, w'', t) := exec (k x) w' in (o, w'', Called c :: t)
    | (Raised e, w') => (Raised e, w', [Called c])
    end
  end.

(** A run followed by another one that starts from its result. *)
Definition and_then {A B} (r : outcome A * World * list logged)
    (f : A -> World -> outcome B * World * list logged)
  : outcome B * World * list logged :=
  match r with
  | (Returned a, w1, t1) => let '(o, w2, t2) := f a w1 in (o, w2, t1 ++ t2)
  | (Raised e, w1, t1) => (Raised e, w1, t1)
  end.
End Exec.

(** ** subprocess.run *)

(** [run(args, capture_output=..., check=...)]: start the process, wait
    for it, and raise [CalledProcessError] on a non-zero exit status only
    if [check] is set. *)
Definition run (args : list str) (capture_output check : bool)
  : prog CompletedProcess :=
  r <- trigger (spawn args capture_output) ;;
  if check && negb (returncode r =? 0)
  then Raise (CalledProcessError (returncode r))
  else Ret r.

(** [tmp.stdout.decode()] *)
Definition stdout_decode (tmp : CompletedProcess) : prog str :=
  match stdout tmp with
  | None => Raise AttributeError
  | Some raw =>
    match decode raw with
    | Some s => Ret s
    | None => Raise UnicodeDecodeError
    end
  end.

(** ** The sysctl gateway *)

(** [sysctl_read(name)]: the output of [sysctl -nb name], decoded.  The
    exit status is not looked at. *)
Definition sysctl_read (name : str) : prog str :=
  tmp <- run [u "sysctl"; u "-nb"; name] true false ;;
  stdout_decode tmp.

(** [sysctl_write(name, value)] *)
Definition sysctl_write (name : str) (value : value) : prog bool :=
  (* convert other types to string before comparison *)
  let value := to_str value in
  (* do not change anything if a value is already configured *)
  cur <- sysctl_read name ;;
  if str_eqb cur value then Ret true else
  (* return False if sysctl call failed *)
  r <- run [u "sysctl"; u "-wq"; name ++ u "=" ++ value] false false ;;
  if negb (returncode r =? 0) then Ret false else
  (* compare old and new values *)
  cur' <- sysctl_read name ;;
  if str_eqb cur' value then Ret true else
  (* False in other cases *)
  Ret false.

(** [sysctl_apply(sysctl_dict, revert)].  The recursive call is made
    with [revert=False] from a call with [revert=True], which is why the
    recursion ends; the [match] on [revert] keeps that fact in scope. *)
Equations sysctl_apply (sysctl_dict : dict str value) (revert : bool)
  : prog bool by wf (Nat.b2n revert) lt :=
sysctl_apply sysctl_dict revert :=
  (* get current values *)
  sysctl_original <-
    for_in (keys sysctl_dict)
      (fun key_name sysctl_original =>
         cur <- sysctl_read key_name ;;
         Ret (setitem sysctl_original key_name (VStr cur)))
      [] ;;
  (* apply new values and revert in case one of them was not applied *)
  for_in_return (items sysctl_dict)
    (fun '(key_name, value) =>
       ok <- sysctl_write key_name value ;;
       if negb ok then
         (match revert as r return revert = r -> prog unit with
          | true => fun _ => sysctl_apply sysctl_original false ;; Ret tt
          | false => fun _ => Ret tt
          end eq_refl) ;;
         Ret (Some false)
       else Ret None)
    (* everything applied *)
    (Ret true).

(** ** Secure boot *)

(** [p] is a prefix of [s]. *)
Fixpoint startswith (p s : str) : bool :=
  match p, s with
  | [], _ => true
  | x :: p', y :: s' => N.eqb x y && startswith p' s'
  | _ :: _, [] => false
  end.

(** [needle in hay] on [str]. *)
Fixpoint contains (needle hay : str) : bool :=
  startswith needle hay
  || match hay with
     | [] => false
     | _ :: hay' => contains needle hay'
     end.

(** [get_secure_boot_state()] *)
Definition get_secure_boot_state : prog bool :=
  uefi <- trigger is_uefi_system ;;
  if negb uefi then Ret false else
  tmp <- trigger (cmd (u "mokutil --sb-state")) ;;
  Ret (contains (u "enabled") tmp).

(** ** Load averages *)

(** *** [float]: IEEE 754 binary64, as the specification of its
    operations *)

Module Float.

Definition prec : Z := 53.
Definition emax : Z := 1024.

Definition float := spec_float.

(** The binary64 nearest to [p / q], ties to even. *)
Definition of_ratio (p q : positive) : float :=
  let '(mz, ez, lz) := SFdiv_core_binary prec emax (Zpos p) 0 (Zpos q) 0 in
  binary_round_aux prec emax false mz ez lz.

Definition pow10 (n : N) : positive :=
  match n with
  | N0 => 1%positive
  | Npos p => Pos.pow 10 p
  end.

(** The digits and the dot of a decimal field: the number written by the
    digits, how many of them follow the dot, and how many there are. *)
Fixpoint scan (s : str) (dot : bool) (mant : N) (frac : N) (digits : N)
  : option (N * N * N) :=
  match s with
  | [] => Some (mant, frac, digits)
  | c :: s' =>
    if (48 <=? c)%N && (c <=? 57)%N then
      scan s' dot (10 * mant + (c - 48))%N
           (if dot then frac + 1 else frac)%N (digits + 1)%N
    else if (c =? 46)%N then
      if dot then None else scan s' true mant frac digits
    else None
  end.

(** [float(s)] for a string of digits and dots, which is all that a
    group of the load-average pattern can hold: a number needs a digit and
    at most one dot, and is rounded to the nearest binary64. *)
Definition of_str (s : str) : option float :=
  match scan s false 0 0 0 with
  | Some (mant, frac, digits) =>
    if (digits =? 0)%N then None
    else match mant with
         | N0 => Some (S754_zero false)
         | Npos p => Some (of_ratio p (pow10 frac))
         end
  | None => None
  end.

(** [float(n)] for an [int]; Python raises [OverflowError] where the
    rounding would give an infinity. *)
Definition of_int (n : Z) : option float :=
  match binary_normalize prec emax n 0 false with
  | S754_infinity _ => None
  | x => Some x
  end.

Definition is_zero (x : float) : bool :=
  match x with S754_zero _ => true | _ => false end.

Definition div (x y : float) : float := SFdiv prec emax x y.

End Float.

(** [float(s)] *)
Definition float_of (s : str) : prog Float.float :=
  match Float.of_str s with
  | Some x => Ret x
  | None => Raise ValueError
  end.

(** [x / n] for a [float] and an [int] *)
Definition truediv (x : Float.float) (n : Z) : prog Float.float :=
  match Float.of_int n with
  | None => Raise OverflowError
  | Some y => if Float.is_zero y then Raise ZeroDivisionError
              else Ret (Float.div x y)
  end.

(** *** The fragment of [re] that the pattern needs *)

Module Re.

(** [\s] on [str]: the Unicode white space. *)
Definition is_space (c : N) : bool :=
  ((9 <=? c) && (c <=? 13) || (28 <=? c) && (c <=? 32)
   || (c =? 133) || (c =? 160) || (c =? 5760)
   || (8192 <=? c) && (c <=? 8202)
   || (c =? 8232) || (c =? 8233) || (c =? 8239) || (c =? 8287)
   || (c =? 12288))%N.

(** [[0-9\.]] *)
Definition is_digit_or_dot (c : N) : bool :=
  ((48 <=? c) && (c <=? 57) || (c =? 46))%N.

Inductive regex : Type :=
| Star (set : N -> bool)              (* [set*], greedy *)
| Plus (set : N -> bool)              (* [set+], greedy *)
| Group (name : string) (r : regex)   (* [(?P<name>r)] *)
| Seq (r1 r2 : regex).

(** The named groups of a match. *)
Definition groups := list (string * str).

(** [set*] against [s]: the longest run first, then shorter ones, until
    the rest of the pattern [k] matches what is left. *)
Fixpoint star {R} (set : N -> bool) (s : str) (k : str -> option R)
  : option R :=
  match s with
  | c :: s' =>
    if set c then
      match star set s' k with
      | Some r => Some r
      | None => k s
      end
    else k s
  | [] => k []
  end.

(** What was consumed between [s] and its suffix [s']. *)
Definition consumed (s s' : str) : str :=
  firstn (List.length s - List.length s') s.

(** Backtracking match of [r] at the head of [s]; [k] is the rest of the
    pattern, given what is left of the text and the groups so far. *)
Fixpoint match_here (r : regex) (s : str) (g : groups)
    (k : str -> groups -> option groups) : option groups :=
  match r with
  | Star set => star set s (fun s' => k s' g)
  | Plus set =>
    match s with
    | c :: s' => if set c then star set s' (fun s'' => k s'' g) else None
    | [] => None
    end
  | Group name r' =>
    match_here r' s g (fun s' g' => k s' (g' ++ [(name, consumed s s')]))
  | Seq r1 r2 =>
    match_here r1 s g (fun s' g' => match_here r2 s' g' k)
  end.

(** [re.search]: the match at the leftmost position that has one. *)
Fixpoint search (r : regex) (s : str) : option groups :=
  match match_here r s [] (fun _ g => Some g) with
  | Some g => Some g
  | None =>
    match s with
    | [] => None
    | _ :: s' => search r s'
    end
  end.

Fixpoint group (g : groups) (name : string) : option str :=
  match g with
  | [] => None
  | (n, v) :: g' => if String.eqb n name then Some v else group g' name
  end.

End Re.

(** [matches[name]]: [None] is not subscriptable. *)
Definition subscript (matches : option Re.groups) (name : string)
  : prog str :=
  match matches with
  | None => Raise TypeError
  | Some g =>
    match Re.group g name with
    | Some v => Ret v
    | None => Raise IndexError
    end
  end.

(** [r"\s*(?P<one>[0-9\.]+)\s+(?P<five>[0-9\.]+)\s+(?P<fifteen>[0-9\.]+)\s*"] *)
Definition loadavg_pattern : Re.regex :=
  Re.Seq (Re.Star Re.is_space)
 (Re.Seq (Re.Group "one" (Re.Plus Re.is_digit_or_dot))
 (Re.Seq (Re.Plus Re.is_space)
 (Re.Seq (Re.Group "five" (Re.Plus Re.is_digit_or_dot))
 (Re.Seq (Re.Plus Re.is_space)
 (Re.Seq (Re.Group "fifteen" (Re.Plus Re.is_digit_or_dot))
         (Re.Star Re.is_space)))))).

(** [get_load_averages()] *)
Definition get_load_averages : prog (dict Z Float.float) :=
  data <- trigger (read_file (u "/proc/loadavg")) ;;
  let matches := Re.search loadavg_pattern data in

  core_count <- trigger get_core_count ;;

  let res : dict Z Float.float := [] in
  one <- subscript matches "one" ;;
  one <- float_of one ;;
  one <- truediv one core_count ;;
  let res := setitem res 1 one in
  five <- subscript matches "five" ;;
  five <- float_of five ;;
  five <- truediv five core_count ;;
  let res := setitem res 5 five in
  fifteen <- subscript matches "fifteen" ;;
  fifteen <- float_of fifteen ;;
  fifteen <- truediv fifteen core_count ;;
  let res := setitem res 15 fifteen in

  Ret res.

(** ** Vocabulary of the statements *)

(** The first loop of [sysctl_apply] on its own: the snapshot. *)
Definition snapshot (sysctl_dict : dict str value) : prog (dict str value) :=
  for_in (keys sysctl_dict)
    (fun key_name sysctl_original =>
       cur <- sysctl_read key_name ;;
       Ret (setitem sysctl_original key_name (VStr cur)))
    [].

(** The body of the second loop of [sysctl_apply]: one write, and the
    rollback and [return False] when it fails. *)
Definition write_or_revert (sysctl_original : dict str value) (revert : bool)
    (item : str * value) : prog (option bool) :=
  let '(key_name, value) := item in
  ok <- sysctl_write key_name value ;;
  if negb ok then
    (if revert then sysctl_apply sysctl_original false ;; Ret tt
     else Ret tt) ;;
    Ret (Some false)
  else Ret None.

(** The dictionary the first loop builds from the values it read. *)
Definition snapshot_of (names : list str) (vals : list str) : dict str value :=
  fold_left (fun d '(k, v) => setitem d k (VStr v)) (combine names vals) [].

(** Reading a list of keys one after the other. *)
Fixpoint read_all (names : list str) : prog (list str) :=
  match names with
  | [] => Ret []
  | n :: ns => v <- sysctl_read n ;; vs <- read_all ns ;; Ret (v :: vs)
  end.

(** Writing a list of items one after the other, up to the first write
    that reports failure. *)
Fixpoint write_all (its : list (str * value)) : prog bool :=
  match its with
  | [] => Ret true
  | (k, v) :: its' =>
    ok <- sysctl_write k v ;;
    if ok then write_all its' else Ret false
  end.

(** The two command lines of the gateway. *)
Definition query_args (name : str) : list str :=
  [u "sysctl"; u "-nb"; name].
Definition set_args (name value : str) : list str :=
  [u "sysctl"; u "-wq"; name ++ u "=" ++ value].

Definition query_call (name : str) : logged :=
  Called (spawn (query_args name) true).
Definition set_call (name value : str) : logged :=
  Called (spawn (set_args name value) false).

(** What was spawned, if the logged call is a process. *)
Definition spawned (l : logged) : option (list str * bool) :=
  match l with
  | Called c =>
    match c with
    | spawn args capture => Some (args, capture)
    | _ => None
    end
  end.

(** The logged call is a query of [name] or a set-command on [name]. *)
Definition about_key (name : str) (l : logged) : Prop :=
  spawned l = Some (query_args name, true)
  \/ exists v, spawned l = Some (set_args name v, false).

Definition about_keys (names : list str) (l : logged) : Prop :=
  exists name, In name names /\ about_key name l.

(** The logged call is a set-command (its second word is [-wq]). *)
Definition is_set_call (l : logged) : bool :=
  match spawned l with
  | Some (_ :: opt :: _, _) => str_eqb opt (u "-wq")
  | _ => false
  end.

(** The number that a string of decimal digits writes, most significant
    digit first. *)
Fixpoint digits_value (s : str) (acc : N) : option N :=
  match s with
  | [] => Some acc
  | c :: s' =>
    if (48 <=? c)%N && (c <=? 57)%N
    then digits_value s' (10 * acc + (c - 48))%N
    else None
  end.

(** The integer that a decimal string writes: digits, after an optional
    minus sign. *)
Definition decimal_value (s : str) : option Z :=
  match s with
  | [] => None
  | c :: d =>
    if (c =? 45)%N then
      match d with
      | [] => None
      | _ => option_map (fun n => - Z.of_N n) (digits_value d 0)
      end
    else option_map Z.of_N (digits_value s 0)
  end.

(** A field of the load-average file: digits and dots, at least one. *)
Definition is_field (s : str) : bool :=
  negb (Nat.eqb (List.length s) 0) && forallb Re.is_digit_or_dot s.

(** A separator: white space, at least one character. *)
Definition is_separator (s : str) : bool :=
  negb (Nat.eqb (List.length s) 0) && forallb Re.is_space s.

(** A run of [set] cannot go on into [rest]. *)
Definition stops (set : N -> bool) (rest : str) : bool :=
  match rest with
  | [] => true
  | c :: _ => negb (set c)
  end.

(** What follows the third field does not go on with it. *)
Definition ends_field (rest : str) : bool := stops Re.is_digit_or_dot rest.

(** Every call that [p] makes satisfies [P], however [p] ends. *)
Definition logs {World} (h : forall X, call X -> World -> outcome X * World)
    {A} (P : logged -> Prop) (p : prog A) : Prop :=
  forall w o w' t, exec h p w = (o, w', t) -> Forall P t.

(** ** A stub kernel

    A small model of the command executor, for the concrete scenarios: a
    table of tunables, a list of keys whose set-command exits with a
    non-zero status, and links (a successful write to the first key of a
    link stores the same value under the second one too, the way
    [net.ipv4.conf.all.forwarding] writes through to every interface). *)

Module Stub.

Record kernel : Type := mkKernel {
  store : list (str * bytes);
  rejects : list str;
  links : list (str * str);
  journal : list (str * bytes);   (* the accepted writes, oldest first *)
}.

Fixpoint lookup (k : str) (st : list (str * bytes)) : option bytes :=
  match st with
  | [] => None
  | (k', v) :: st' => if str_eqb k' k then Some v else lookup k st'
  end.

Fixpoint update (k : str) (v : bytes) (st : list (str * bytes))
  : list (str * bytes) :=
  match st with
  | [] => []
  | (k', v') :: st' =>
    if str_eqb k' k then (k', v) :: st' else (k', v') :: update k v st'
  end.

Definition mem (k : str) (ks : list str) : bool :=
  existsb (str_eqb k) ks.

(** [name=value] is split at the first [=]. *)
Fixpoint split_assign (s : str) : option (str * str) :=
  match s with
  | [] => None
  | c :: s' =>
    if (c =? 61)%N then Some ([], s')
    else match split_assign s' with
         | Some (k, v) => Some (c :: k, v)
         | None => None
         end
  end.

(** The stub stores ASCII values only. *)
Fixpoint ascii_bytes (s : str) : option bytes :=
  match s with
  | [] => Some []
  | c :: s' =>
    if (c <? 128)%N then
      match Byte.of_N c, ascii_bytes s' with
      | Some x, Some r => Some (x :: r)
      | _, _ => None
      end
    else None
  end.

Definition write_through (k : str) (v : bytes) (ln : list (str * str))
    (st : list (str * bytes)) : list (str * bytes) :=
  fold_left (fun st' '(src, dst) =>
               if str_eqb src k then update dst v st' else st')
            ln (update k v st).

Definition failed (capture : bool) : CompletedProcess :=
  mkCompleted 255 (if capture then Some [] else None).

Definition sysctl (args : list str) (capture : bool) (w : kernel)
  : outcome CompletedProcess * kernel :=
  match args with
  | [prog_name; opt; arg] =>
    if negb (str_eqb prog_name (u "sysctl")) then (Raised FileNotFoundError, w)
    else if str_eqb opt (u "-nb") then
      match lookup arg (store w) with
      | Some v =>
        (Returned (mkCompleted 0 (if capture then Some v else None)), w)
      | None => (Returned (failed capture), w)
      end
    else if str_eqb opt (u "-wq") then
      match split_assign arg with
      | Some (k, v) =>
        match lookup k (store w), ascii_bytes v with
        | Some _, Some raw =>
          if mem k (rejects w) then (Returned (failed capture), w)
          else (Returned (mkCompleted 0 (if capture then Some [] else None)),
                mkKernel (write_through k raw (links w) (store w))
                         (rejects w) (links w)
                         (journal w ++ [(k, raw)]))
        | _, _ => (Returned (failed capture), w)
        end
      | None => (Returned (failed capture), w)
      end
    else (Returned (failed capture), w)
  | _ => (Raised FileNotFoundError, w)
  end.

(** A machine without the [sysctl] binary. *)
Definition no_binary (X : Type) (c : call X) (w : unit)
  : outcome X * unit :=
  (Raised FileNotFoundError, w).

(** A machine for the probes: the content of [/proc/loadavg], the number
    of cores, the firmware kind and what [mokutil --sb-state] prints. *)
Record machine : Type := mkMachine {
  loadavg : str;
  cores : Z;
  uefi : bool;
  mokutil : str;
}.

Definition probe (X : Type) (c : call X) (w : machine)
  : outcome X * machine :=
  match c in call X return outcome X * machine with
  | spawn _ _ => (Raised FileNotFoundError, w)
  | read_file path =>
    if str_eqb path (u "/proc/loadavg") then (Returned (loadavg w), w)
    else (Raised FileNotFoundError, w)
  | get_core_count => (Returned (cores w), w)
  | is_uefi_system => (Returned (uefi w), w)
  | cmd command =>
    if str_eqb command (u "mokutil --sb-state")
    then (Returned (mokutil w), w)
    else (Raised OSError, w)
  end.

Definition handler (X : Type) (c : call X) (w : kernel)
  : outcome X * kernel :=
  match c in call X return outcome X * kernel with
  | spawn args capture => sysctl args capture w
  | read_file _ => (Raised FileNotFoundError, w)
  | get_core_count => (Raised OSError, w)
  | is_uefi_system => (Raised OSError, w)
  | cmd _ => (Raised OSError, w)
  end.

End Stub.

(** ** Scenarios on the stub kernel *)

Module Scenario.

Definition A : str := u "A".
Definition B : str := u "B".

(** [{A: "1", B: "2"}] against a kernel where [B] refuses every write. *)
Definition two_keys : dict str value := [(A, VStr (u "1")); (B, VStr (u "2"))].
Definition B_refuses : Stub.kernel :=
  Stub.mkKernel [(A, b "0"); (B, b "7")] [B] [] [].

(** [{A: "1"}] against a kernel where [A] refuses every write. *)
Definition one_key : dict str value := [(A, VStr (u "1"))].
Definition A_refuses : Stub.kernel :=
  Stub.mkKernel [(A, b "0")] [A] [] [].

(** [A] holds ["0"] and takes writes. *)
Definition A_is_0 : Stub.kernel :=
  Stub.mkKernel [(A, b "0")] [] [] [].

(** [A] already holds ["1"]. *)
Definition A_is_1 : Stub.kernel :=
  Stub.mkKernel [(A, b "1")] [] [] [].

(** Forwarding: a write to [all] goes through to [eth0]; [osrelease] is
    read-only.  [eth0] forwards already and is asked to stay that way. *)
Definition all_fwd : str := u "net.ipv4.conf.all.forwarding".
Definition eth0_fwd : str := u "net.ipv4.conf.eth0.forwarding".
Definition osrelease : str := u "kernel.osrelease".

Definition forwarding : dict str value :=
  [(all_fwd, VStr (u "1")); (osrelease, VStr (u "7")); (eth0_fwd, VStr (u "1"))].
Definition router : Stub.kernel :=
  Stub.mkKernel [(all_fwd, b "0"); (osrelease, b "6"); (eth0_fwd, b "1")]
                [osrelease] [(all_fwd, eth0_fwd)] [].

(** Two cores, the load-average line of the specification, secure boot
    on. *)
Definition two_cores : Stub.machine :=
  Stub.mkMachine (u "1.0 2.0 3.0 4/400 123") 2 true
                 (u "SecureBoot enabled").

(** The same machine booted by a BIOS. *)
Definition legacy_boot : Stub.machine :=
  Stub.mkMachine (u "1.0 2.0 3.0 4/400 123") 2 false [].

(** [B] is asked to stay at ["7"], then [A] to take ["5"]. *)
Definition keep_then_refuse : dict str value :=
  [(B, VStr (u "7")); (A, VStr (u "5"))].

End Scenario.

(** ** Uptime *)

(** [int(x)] for a [float]: the integer part, towards zero; Python raises
    [ValueError] on a NaN and [OverflowError] on an infinity. *)
Definition int_of_float (x : Float.float) : prog Z :=
  match x with
  | S754_zero _ => Ret 0
  | S754_finite s m e =>
    let magnitude := Z.shiftl (Zpos m) e in
    Ret (if s then - magnitude else magnitude)
  | S754_infinity _ => Raise OverflowError
  | S754_nan => Raise ValueError
  end.

(** One character of [set], then the rest of the pattern [k]. *)
Definition re_one (set : N -> bool) (k : str -> Re.groups -> option Re.groups)
    (s : str) (g : Re.groups) : option Re.groups :=
  match s with
  | c :: s' => if set c then k s' g else None
  | [] => None
  end.

(** [r"([0-9\.]+)\s"] at the head of [s]; the group is number 1. *)
Definition uptime_pattern_here (s : str) : option Re.groups :=
  Re.match_here (Re.Group "1" (Re.Plus Re.is_digit_or_dot)) s []
                (re_one Re.is_space (fun _ g => Some g)).

(** [re.search] for a pattern given by its match at the head of a text:
    the leftmost position that matches. *)
Fixpoint search_by (here : str -> option Re.groups) (s : str)
  : option Re.groups :=
  match here s with
  | Some g => Some g
  | None =>
    match s with
    | [] => None
    | _ :: s' => search_by here s'
    end
  end.

(** [m.group(1)]: [None] has no attribute [group]. *)
Definition group_1 (m : option Re.groups) : prog str :=
  match m with
  | None => Raise AttributeError
  | Some g =>
    match Re.group g "1" with
    | Some v => Ret v
    | None => Raise IndexError
    end
  end.

(** [get_uptime_seconds()] *)
Definition get_uptime_seconds : prog Z :=
  data <- trigger (read_file (u "/proc/uptime")) ;;
  seconds <- group_1 (search_by uptime_pattern_here data) ;;
  x <- float_of seconds ;;
  res <- int_of_float x ;;

  Ret res.

(** ** Device files *)

(** [os.path.join(a, b)] on POSIX. *)
Definition path_join (a b : str) : str :=
  if startswith (u "/") b then b
  else if Nat.eqb (List.length a) 0 || startswith (u "/") (rev a)
       then a ++ b
       else a ++ u "/" ++ b.

(** [for x in xs: ...] whose body may [return] a value: the value of the
    first round that returns. *)
Fixpoint first_return {X R} (xs : list X) (body : X -> option R)
  : option R :=
  match xs with
  | [] => None
  | x :: xs' =>
    match body x with
    | Some r => Some r
    | None => first_return xs' body
    end
  end.

Section DeviceFiles.
(** [fnmatch.fnmatch(name, pattern)], and the triples [(root, dirs,
    files)] that [os.walk(top)] yields, in order. *)
Variable fnmatch : str -> str -> bool.
Variable os_walk : str -> list (str * list str * list str).

(** [find_device_file(device)]; the result is [None] or the path. *)
Definition find_device_file (device : str) : option str :=
  match
    first_return (os_walk (u "/dev"))
      (fun '(root, dirs, files) =>
         first_return files
           (fun basename =>
              if fnmatch basename device
              then Some (path_join root basename)
              else None))
  with
  | Some path => Some path
  | None => None
  end.
End DeviceFiles.

(** ** Executors that behave like a table of tunables *)

(** The keys [names] read the same in [w'] as in [w]. *)
Definition unchanged {World} (val : World -> str -> str) (names : list str)
    (w w' : World) : Prop :=
  forall k, In k names -> val w' k = val w k.

(** For the keys [names] the executor [h] is a table: [val w k] is what
    a query of [k] answers in [w], and a query changes no value; a
    set-command [k=v] that the table accepts exits with status zero and
    stores [v] under [k] alone; one that it refuses exits with another
    status and changes no value. *)
Record table_like {World} (h : forall X, call X -> World -> outcome X * World)
    (names : list str) (val : World -> str -> str)
    (accepts : str -> str -> bool) : Prop := {
  query_answers : forall k w, In k names ->
    exists w', exec h (sysctl_read k) w
               = (Returned (val w k), w', [query_call k])
               /\ unchanged val names w w';
  set_accepted : forall k v w, In k names -> accepts k v = true ->
    exists cp w', h _ (spawn (set_args k v) false) w = (Returned cp, w')
                  /\ returncode cp = 0
                  /\ val w' k = v
                  /\ (forall k', In k' names -> k' <> k ->
                                 val w' k' = val w k');
  set_refused : forall k v w, In k names -> accepts k v = false ->
    exists cp w', h _ (spawn (set_args k v) false) w = (Returned cp, w')
                  /\ returncode cp <> 0
                  /\ unchanged val names w w';
}.

(** Relative to the world [w0] before the batch: every key of [names]
    that reads differently in [w] can be written back. *)
Definition restorable {World} (names : list str) (val : World -> str -> str)
    (accepts : str -> str -> bool) (w0 w : World) : Prop :=
  forall k, In k names -> val w k = val w0 k \/ accepts k (val w0 k) = true.

(** A table of two tunables: [A] is a switch that takes ["0"] and ["1"],
    [B] reads ["7"] and takes nothing. *)
Module Switch.

Definition val (w : bool) (k : str) : str :=
  if str_eqb k Scenario.A then (if w then u "1" else u "0") else u "7".

Definition accepts (k v : str) : bool :=
  str_eqb k Scenario.A && (str_eqb v (u "0") || str_eqb v (u "1")).

Definition sysctl (args : list str) (capture : bool) (w : bool)
  : outcome CompletedProcess * bool :=
  match args with
  | [_; opt; arg] =>
    if str_eqb opt (u "-nb") then
      (Returned (mkCompleted 0
                   (Some (if str_eqb arg Scenario.A
                          then (if w then b "1" else b "0")
                          else b "7"))), w)
    else if str_eqb arg (u "A=0") then (Returned (mkCompleted 0 None), false)
    else if str_eqb arg (u "A=1") then (Returned (mkCompleted 0 None), true)
    else (Returned (mkCompleted 1 None), w)
  | _ => (Raised FileNotFoundError, w)
  end.

Definition handler (X : Type) (c : call X) (w : bool) : outcome X * bool :=
  match c in call X return outcome X * bool with
  | spawn args capture => sysctl args capture w
  | read_file _ => (Raised FileNotFoundError, w)
  | get_core_count => (Raised OSError, w)
  | is_uefi_system => (Raised OSError, w)
  | cmd _ => (Raised OSError, w)
  end.

End Switch.

(** A machine for the files under [/proc]. *)
Module Proc.

Record files : Type := mkFiles {
  uptime : str;
  loadavg : str;
  cores : Z;
}.

Definition handler (X : Type) (c : call X) (w : files) : outcome X * files :=
  match c in call X return outcome X * files with
  | spawn _ _ => (Raised FileNotFoundError, w)
  | read_file path =>
    if str_eqb path (u "/proc/uptime") then (Returned (uptime w), w)
    else if str_eqb path (u "/proc/loadavg") then (Returned (loadavg w), w)
    else (Raised FileNotFoundError, w)
  | get_core_count => (Returned (cores w), w)
  | is_uefi_system => (Raised OSError, w)
  | cmd _ => (Raised OSError, w)
  end.

(** Four days up, lightly loaded, two cores. *)
Definition idle : files :=
  mkFiles (u "350735.47 234388.90") (u "0.52 0.58 0.59 1/257 11757") 2.

(** Both files empty. *)
Definition blank : files := mkFiles [] [] 2.

(** A load-average line whose first field has two dots. *)
Definition garbled : files :=
  mkFiles (u "350735.47 234388.90") (u "1.2.3 0.58 0.59 1/257 11757") 2.

(** No core reported. *)
Definition coreless : files :=
  mkFiles (u "350735.47 234388.90") (u "0.52 0.58 0.59 1/257 11757") 0.

End Proc.

(** A kernel whose [sysctl] binary is lost after a number of calls: the
    world is the number of calls still served and the stub kernel. *)
Module Fragile.

Definition handler (X : Type) (c : call X) (w : nat * Stub.kernel)
  : outcome X * (nat * Stub.kernel) :=
  match c in call X return outcome X * (nat * Stub.kernel) with
  | spawn args capture =>
    match fst w with
    | O => (Raised FileNotFoundError, w)
    | S served =>
      let '(o, k) := Stub.sysctl args capture (snd w) in (o, (served, k))
    end
  | read_file _ => (Raised FileNotFoundError, w)
  | get_core_count => (Raised OSError, w)
  | is_uefi_system => (Raised OSError, w)
  | cmd _ => (Raised OSError, w)
  end.

End Fragile.

(** A decimal digit. *)
Definition is_digit (c : N) : bool := (48 <=? c)%N && (c <=? 57)%N.

(** Digits that start with one of 1 to 9. *)
Definition is_positive_decimal (s : str) : bool :=
  match s with
  | [] => false
  | c :: r => (49 <=? c)%N && (c <=? 57)%N && forallb is_digit r
  end.

(** The one way to write an integer in decimal: ["0"], or digits with no
    leading zero, after a minus sign for a negative number. *)
Definition is_canonical_decimal (s : str) : bool :=
  match s with
  | [] => false
  | c :: r =>
    if (c =? 45)%N then is_positive_decimal r
    else if (c =? 48)%N then Nat.eqb (List.length r) 0
    else is_positive_decimal s
  end.

(** However [p] ends, it has made at most [n] calls. *)
Definition at_most {World} (h : forall X, call X -> World -> outcome X * World)
    {A} (n : nat) (p : prog A) : Prop :=
  forall w o w' t, exec h p w = (o, w', t) -> (List.length t <= n)%nat.

(** A small [/dev] and a matcher for the patterns [text] and [text*]. *)
Module Dev.

Definition glob (name pattern : str) : bool :=
  match rev pattern with
  | 42%N :: prefix => startswith (rev prefix) name
  | _ => str_eqb name pattern
  end.

Definition tree (top : str) : list (str * list str * list str) :=
  [(u "/dev", [u "pts"; u "ttyS9"], [u "null"; u "ttyS0"; u "ttyS1"]);
   (u "/dev/pts", [], [u "0"; u "ptmx"])].

End Dev.

(** * Properties *)

Unset Implicit Arguments.

Arguments sysctl_read : simpl never.
Arguments sysctl_write : simpl never.
Arguments snapshot : simpl never.
Arguments run : simpl never.

(** ** Strings *)

Lemma str_eqb_refl (s : str) : str_eqb s s = true.
Proof.
  induction s as [|c s IH]; simpl; [reflexivity|].
  rewrite N.eqb_refl. exact IH.
Qed.

Lemma str_eqb_eq (a c : str) : str_eqb a c = true <-> a = c.
Proof.
  split.
  - revert c. induction a as [|x a IH]; intros [|y c]; simpl;
      try discriminate; [reflexivity|].
    intros H. apply andb_true_iff in H. destruct H as [Hx Ha].
    apply N.eqb_eq in Hx. subst y. f_equal. apply IH. exact Ha.
  - intros ->. apply str_eqb_refl.
Qed.

Lemma str_eqb_neq (a c : str) : str_eqb a c = false <-> a <> c.
Proof.
  destruct (str_eqb a c) eqn:E.
  - apply str_eqb_eq in E. split; [discriminate | contradiction].
  - split; [|reflexivity]. intros _ H. apply str_eqb_eq in H. congruence.
Qed.

(** ** Running programs *)

Section ExecFacts.
Variable World : Type.
Variable h : forall X, call X -> World -> outcome X * World.

Lemma exec_bind {A B} (p : prog A) (f : A -> prog B) (w : World) :
  exec h (bind p f) w = and_then (exec h p w) (fun a w1 => exec h (f a) w1).
Proof.
  revert w. induction p as [a|e|X c k IH]; intros w; simpl.
  - destruct (exec h (f a) w) as [[o w2] t2]. reflexivity.
  - reflexivity.
  - destruct (h _ c w) as [[x|e] w']; [|reflexivity].
    rewrite IH. destruct (exec h (k x) w') as [[[a|e] w1] t1]; simpl.
    + destruct (exec h (f a) w1) as [[o w2] t2]. reflexivity.
    + reflexivity.
Qed.

Lemma exec_bind_returned {A B} (p : prog A) (f : A -> prog B) w a w1 t1 :
  exec h p w = (Returned a, w1, t1) ->
  exec h (bind p f) w
  = let '(o, w2, t2) := exec h (f a) w1 in (o, w2, t1 ++ t2).
Proof. intros H. rewrite exec_bind, H. reflexivity. Qed.

Lemma exec_bind_raised {A B} (p : prog A) (f : A -> prog B) w e w1 t1 :
  exec h p w = (Raised e, w1, t1) ->
  exec h (bind p f) w = (Raised e, w1, t1).
Proof. intros H. rewrite exec_bind, H. reflexivity. Qed.

(** [run] without [check] hands the executor's answer through. *)
Lemma exec_run_unchecked args capture w :
  exec h (run args capture false) w
  = match h _ (spawn args capture) w with
    | (Returned cp, w') => (Returned cp, w', [Called (spawn args capture)])
    | (Raised e, w') => (Raised e, w', [Called (spawn args capture)])
    end.
Proof.
  unfold run, trigger. simpl.
  destruct (h _ (spawn args capture) w) as [[cp|e] w']; reflexivity.
Qed.

Lemma exec_sysctl_read name w :
  exec h (sysctl_read name) w
  = match h _ (spawn (query_args name) true) w with
    | (Returned cp, w') =>
      (match stdout cp with
       | None => Raised AttributeError
       | Some raw =>
         match decode raw with
         | Some s => Returned s
         | None => Raised UnicodeDecodeError
         end
       end, w', [query_call name])
    | (Raised e, w') => (Raised e, w', [query_call name])
    end.
Proof.
  unfold sysctl_read. rewrite exec_bind, exec_run_unchecked.
  fold (query_args name).
  destruct (h _ (spawn (query_args name) true) w) as [[cp|e] w'];
    [|reflexivity].
  unfold stdout_decode. simpl.
  destruct (stdout cp) as [raw|]; [|reflexivity].
  destruct (decode raw); reflexivity.
Qed.

(** A read is one query of the executor, whatever comes of it. *)
Lemma sysctl_read_log name w o w' t :
  exec h (sysctl_read name) w = (o, w', t) -> t = [query_call name].
Proof.
  rewrite exec_sysctl_read.
  destruct (h _ (spawn (query_args name) true) w) as [[cp|e] w0];
    intros H; inversion H; reflexivity.
Qed.

(** C4: if [read(K)] already equals the target (after [str]
    conversion), [write(K, V)] returns true, and running it is running
    that one read: the log holds the query and no set-command, and the
    world is the one the read left. *)
Theorem sysctl_write_noop name value w w' t :
  exec h (sysctl_read name) w = (Returned (to_str value), w', t) ->
  exec h (sysctl_write name value) w = (Returned true, w', t)
  /\ t = [query_call name]
  /\ existsb is_set_call t = false.
Proof.
  intros Hread.
  pose proof (sysctl_read_log _ _ _ _ _ Hread) as Ht.
  split; [|split; [exact Ht | subst t; reflexivity]].
  unfold sysctl_write. cbv zeta.
  rewrite (exec_bind_returned _ _ _ _ _ _ Hread).
  rewrite str_eqb_refl. simpl. rewrite app_nil_r. reflexivity.
Qed.

(** C2: when the current value differs from the target and the
    set-command exits with status zero, [write] returns (it does not
    raise) the comparison of the re-read value with the target: true if
    they are equal, false if they differ. *)
Theorem sysctl_write_verified name value w cur w1 t1 cp w2 new w3 t3 :
  exec h (sysctl_read name) w = (Returned cur, w1, t1) ->
  cur <> to_str value ->
  h _ (spawn (set_args name (to_str value)) false) w1 = (Returned cp, w2) ->
  returncode cp = 0 ->
  exec h (sysctl_read name) w2 = (Returned new, w3, t3) ->
  exists ok,
    exec h (sysctl_write name value) w
    = (Returned ok, w3, t1 ++ set_call name (to_str value) :: t3)
    /\ (new = to_str value -> ok = true)
    /\ (new <> to_str value -> ok = false).
Proof.
  intros Hread Hneq Hset Hrc Hreread.
  exists (str_eqb new (to_str value)). split.
  - unfold sysctl_write. cbv zeta.
    rewrite (exec_bind_returned _ _ _ _ _ _ Hread).
    apply str_eqb_neq in Hneq. rewrite Hneq.
    rewrite exec_bind, exec_run_unchecked.
    fold (set_args name (to_str value)). rewrite Hset.
    unfold and_then. rewrite Hrc. simpl negb. cbv iota.
    rewrite (exec_bind_returned _ _ _ _ _ _ Hreread).
    destruct (str_eqb new (to_str value)); simpl;
      rewrite app_nil_r; reflexivity.
  - split.
    + intros ->. apply str_eqb_refl.
    + apply str_eqb_neq.
Qed.

(** C3 as amended: [read] lets an exception of the executor through
    unchanged, and does not look at the exit status: whatever the
    status, it returns the captured output, decoded. *)
Theorem sysctl_read_propagates name w :
  (forall e w',
      h _ (spawn (query_args name) true) w = (Raised e, w') ->
      exec h (sysctl_read name) w = (Raised e, w', [query_call name]))
  /\ (forall cp w' raw s,
      h _ (spawn (query_args name) true) w = (Returned cp, w') ->
      stdout cp = Some raw -> decode raw = Some s ->
      exec h (sysctl_read name) w = (Returned s, w', [query_call name])).
Proof.
  split.
  - intros e w' H. rewrite exec_sysctl_read, H. reflexivity.
  - intros cp w' raw s H Hout Hdec.
    rewrite exec_sysctl_read, H, Hout, Hdec. reflexivity.
Qed.
End ExecFacts.

(** ** Dictionaries *)

Lemma keys_setitem_fresh {V} (d : dict str V) k v :
  ~ In k (keys d) -> setitem d k v = d ++ [(k, v)].
Proof.
  induction d as [|[k' v'] d IH]; simpl; intros Hk; [reflexivity|].
  change (key_eqb k' k) with (str_eqb k' k); destruct (str_eqb k' k) eqn:E.
  - apply str_eqb_eq in E. subst. tauto.
  - rewrite IH; [reflexivity | tauto].
Qed.

Lemma keys_setitem_incl {V} (d : dict str V) k v x :
  In x (keys (setitem d k v)) -> x = k \/ In x (keys d).
Proof.
  unfold keys. induction d as [|[k' v'] d IH]; simpl.
  - intuition congruence.
  - change (key_eqb k' k) with (str_eqb k' k); destruct (str_eqb k' k) eqn:E; simpl.
    + tauto.
    + intros [H|H]; [tauto|]. destruct (IH H); tauto.
Qed.

Lemma fold_setitem_fresh (names vals : list str) (acc : dict str value) :
  NoDup (keys acc ++ names) -> List.length vals = List.length names ->
  fold_left (fun d '(k, v) => setitem d k (VStr v)) (combine names vals) acc
  = acc ++ combine names (List.map VStr vals).
Proof.
  revert vals acc. induction names as [|n names IH]; intros vals acc Hnd Hlen.
  - simpl. rewrite app_nil_r. reflexivity.
  - destruct vals as [|v vals]; [discriminate|]. simpl in *.
    rewrite keys_setitem_fresh.
    + rewrite IH.
      * rewrite <- app_assoc. reflexivity.
      * unfold keys in *. rewrite map_app. simpl. rewrite <- app_assoc.
        exact Hnd.
      * lia.
    + apply NoDup_remove_2 in Hnd. intros Hin. apply Hnd.
      apply in_or_app. left. exact Hin.
Qed.

(** For a dictionary (no key twice) the snapshot pairs every key, in the
    caller's order, with the value read for it. *)
Lemma snapshot_of_nodup names vals :
  NoDup names -> List.length vals = List.length names ->
  snapshot_of names vals = combine names (List.map VStr vals).
Proof.
  intros Hnd Hlen. unfold snapshot_of.
  rewrite fold_setitem_fresh; [reflexivity | exact Hnd | exact Hlen].
Qed.

Lemma keys_combine {V} (names : list str) (vs : list V) :
  List.length vs = List.length names -> keys (combine names vs) = names.
Proof.
  revert vs. induction names as [|n names IH]; intros [|v vs]; simpl;
    try discriminate; try reflexivity.
  intros H. f_equal. apply IH. lia.
Qed.

(** ** The batch *)

(** The second loop, with the rollback written with a plain [if]. *)
Lemma sysctl_apply_body sysctl_dict revert :
  sysctl_apply sysctl_dict revert
  = (sysctl_original <- snapshot sysctl_dict ;;
     for_in_return (items sysctl_dict)
       (write_or_revert sysctl_original revert) (Ret true)).
Proof. destruct revert; reflexivity. Qed.

Section ApplyFacts.
Variable World : Type.
Variable h : forall X, call X -> World -> outcome X * World.

Lemma exec_bind_inv {A B} (p : prog A) (f : A -> prog B) w r w2 t :
  exec h (bind p f) w = (Returned r, w2, t) ->
  exists a w1 t1 t2,
    exec h p w = (Returned a, w1, t1)
    /\ exec h (f a) w1 = (Returned r, w2, t2)
    /\ t = t1 ++ t2.
Proof.
  rewrite exec_bind.
  destruct (exec h p w) as [[[a|e] w1] t1]; simpl; [|discriminate].
  destruct (exec h (f a) w1) as [[o w2'] t2] eqn:E.
  intros H. inversion H; subst.
  exists a, w1, t1, t2. repeat split; assumption.
Qed.

(** The snapshot loop reads the keys in order and files each value. *)
Lemma exec_snapshot_loop names acc w :
  exec h (for_in names
            (fun key_name sysctl_original =>
               cur <- sysctl_read key_name ;;
               Ret (setitem sysctl_original key_name (VStr cur))) acc) w
  = match exec h (read_all names) w with
    | (Returned vals, w1, t1) =>
      (Returned (fold_left (fun d '(k, v) => setitem d k (VStr v))
                           (combine names vals) acc), w1, t1)
    | (Raised e, w1, t1) => (Raised e, w1, t1)
    end.
Proof.
  revert acc w. induction names as [|n names IH]; intros acc w.
  - reflexivity.
  - cbn [for_in read_all]. rewrite !exec_bind.
    destruct (exec h (sysctl_read n) w) as [[[v|e] w1] t1];
      cbn [and_then]; [|reflexivity].
    cbn [exec and_then]. rewrite IH, exec_bind.
    destruct (exec h (read_all names) w1) as [[[vs|e] w2] t2];
      cbn [exec and_then combine fold_left];
      rewrite ?app_nil_r; reflexivity.
Qed.

Lemma exec_snapshot sysctl_dict w :
  exec h (snapshot sysctl_dict) w
  = match exec h (read_all (keys sysctl_dict)) w with
    | (Returned vals, w1, t1) =>
      (Returned (snapshot_of (keys sysctl_dict) vals), w1, t1)
    | (Raised e, w1, t1) => (Raised e, w1, t1)
    end.
Proof. unfold snapshot, snapshot_of. apply exec_snapshot_loop. Qed.

Lemma read_all_length names w vals w1 t1 :
  exec h (read_all names) w = (Returned vals, w1, t1) ->
  List.length vals = List.length names.
Proof.
  revert w vals t1. induction names as [|n names IH]; intros w vals t1 H.
  - inversion H. reflexivity.
  - cbn [read_all] in H. apply exec_bind_inv in H.
    destruct H as (v & wa & ta & tb & _ & H & _).
    apply exec_bind_inv in H.
    destruct H as (vs & wb & tc & td & Hvs & H & _).
    inversion H; subst. simpl. f_equal. eapply IH. exact Hvs.
Qed.

(** Once the writes of a prefix have all succeeded, the loop is at the
    rest of the items. *)
Lemma exec_loop_prefix orig revert pre rest w1 w2 t2 :
  exec h (write_all pre) w1 = (Returned true, w2, t2) ->
  exec h (for_in_return (pre ++ rest) (write_or_revert orig revert)
                        (Ret true)) w1
  = and_then (Returned tt, w2, t2)
      (fun _ w => exec h (for_in_return rest (write_or_revert orig revert)
                                        (Ret true)) w).
Proof.
  revert w1 t2. induction pre as [|[k v] pre IH]; intros w1 t2 H.
  - cbn [write_all exec] in H. inversion H; subst. cbn [app and_then].
    destruct (exec h (for_in_return rest _ _) w2) as [[o w'] t'].
    reflexivity.
  - cbn [write_all] in H. apply exec_bind_inv in H.
    destruct H as (ok & wa & ta & tb & Hw & H & ->).
    destruct ok; [|discriminate].
    cbn [app for_in_return]. rewrite exec_bind. unfold write_or_revert at 1.
    rewrite exec_bind, Hw. cbn [and_then negb exec].
    rewrite (IH _ _ H). cbn [and_then].
    destruct (exec h (for_in_return rest _ _) w2) as [[o w'] t'].
    rewrite app_nil_r, app_assoc. reflexivity.
Qed.

(** With [revert=False] the batch is the snapshot followed by the
    writes in order up to the first failure, and nothing else. *)
Lemma exec_loop_norevert orig its w :
  exec h (for_in_return its (write_or_revert orig false) (Ret true)) w
  = exec h (write_all its) w.
Proof.
  revert w. induction its as [|[k v] its IH]; intros w; [reflexivity|].
  cbn [for_in_return write_all]. unfold write_or_revert at 1.
  rewrite !exec_bind.
  destruct (exec h (sysctl_write k v) w) as [[[ok|e] w1] t1];
    cbn [and_then]; [|reflexivity].
  destruct ok; cbn [negb exec bind and_then]; rewrite !app_nil_r;
    [|reflexivity].
  rewrite IH. reflexivity.
Qed.

Lemma exec_apply_norevert sysctl_dict w :
  exec h (sysctl_apply sysctl_dict false) w
  = exec h (snapshot sysctl_dict ;; write_all sysctl_dict) w.
Proof.
  rewrite sysctl_apply_body, !exec_bind.
  destruct (exec h (snapshot sysctl_dict) w) as [[[orig|e] w1] t1]; simpl;
    [|reflexivity].
  unfold items. rewrite exec_loop_norevert. reflexivity.
Qed.
End ApplyFacts.

(** ** What a run may log *)

Section Logs.
Variable World : Type.
Variable h : forall X, call X -> World -> outcome X * World.

Lemma logs_ret {A} P (a : A) : logs h P (Ret a).
Proof. intros w o w' t H. inversion H. constructor. Qed.

Lemma logs_bind {A B} P (p : prog A) (f : A -> prog B) :
  logs h P p -> (forall a, logs h P (f a)) -> logs h P (bind p f).
Proof.
  intros Hp Hf w o w' t. rewrite exec_bind.
  destruct (exec h p w) as [[[a|e] w1] t1] eqn:E; cbn [and_then].
  - destruct (exec h (f a) w1) as [[o2 w2] t2] eqn:E2.
    intros H. inversion H; subst. apply Forall_app. split.
    + eapply Hp. exact E.
    + eapply Hf. exact E2.
  - intros H. inversion H; subst. eapply Hp. exact E.
Qed.

Lemma logs_mono {A} (P Q : logged -> Prop) (p : prog A) :
  (forall l, P l -> Q l) -> logs h P p -> logs h Q p.
Proof.
  intros HPQ Hp w o w' t H. eapply Forall_impl; [exact HPQ|].
  eapply Hp. exact H.
Qed.

Lemma logs_run P args capture :
  P (Called (spawn args capture)) -> logs h P (run args capture false).
Proof.
  intros HP w o w' t. rewrite exec_run_unchecked.
  destruct (h _ (spawn args capture) w) as [[cp|e] w1];
    intros H; inversion H; subst; repeat constructor; exact HP.
Qed.

Lemma logs_sysctl_read name : logs h (about_key name) (sysctl_read name).
Proof.
  intros w o w' t H. apply sysctl_read_log in H. subst t.
  repeat constructor.
Qed.

(** A write talks to the executor about its own key only. *)
Lemma logs_sysctl_write name value :
  logs h (about_key name) (sysctl_write name value).
Proof.
  unfold sysctl_write. cbv zeta.
  apply logs_bind; [apply logs_sysctl_read|]. intros cur.
  destruct (str_eqb cur (to_str value)); [apply logs_ret|].
  apply logs_bind.
  - apply logs_run. right. exists (to_str value). reflexivity.
  - intros r. destruct (negb (returncode r =? 0)); [apply logs_ret|].
    apply logs_bind; [apply logs_sysctl_read|]. intros cur'.
    destruct (str_eqb cur' (to_str value)); apply logs_ret.
Qed.

Lemma logs_for_in {X S} P (xs : list X) (body : X -> S -> prog S) s :
  (forall x s', In x xs -> logs h P (body x s')) -> logs h P (for_in xs body s).
Proof.
  revert s. induction xs as [|x xs IH]; intros s Hb; cbn [for_in].
  - apply logs_ret.
  - apply logs_bind; [apply Hb; left; reflexivity|].
    intros s'. apply IH. intros y s'' Hy. apply Hb. right. exact Hy.
Qed.

Lemma logs_for_in_return {X R} P (xs : list X)
    (body : X -> prog (option R)) (after : prog R) :
  (forall x, In x xs -> logs h P (body x)) -> logs h P after ->
  logs h P (for_in_return xs body after).
Proof.
  intros Hb Ha. induction xs as [|x xs IH]; cbn [for_in_return].
  - exact Ha.
  - apply logs_bind; [apply Hb; left; reflexivity|].
    intros [r|]; [apply logs_ret|].
    apply IH. intros y Hy. apply Hb. right. exact Hy.
Qed.

Lemma about_keys_intro names name l :
  In name names -> about_key name l -> about_keys names l.
Proof. intros Hin Hl. exists name. split; assumption. Qed.

Lemma about_keys_incl names names' l :
  incl names names' -> about_keys names l -> about_keys names' l.
Proof.
  intros Hincl (name & Hin & Hl). exists name. split; [|exact Hl].
  apply Hincl. exact Hin.
Qed.

Lemma logs_snapshot sysctl_dict :
  logs h (about_keys (keys sysctl_dict)) (snapshot sysctl_dict).
Proof.
  unfold snapshot. apply logs_for_in. intros name acc Hin.
  apply logs_bind; [|intros cur; apply logs_ret].
  eapply logs_mono; [|apply logs_sysctl_read].
  intros l. apply about_keys_intro. exact Hin.
Qed.

Lemma logs_write_or_revert names orig revert item :
  In (fst item) names ->
  (revert = true -> logs h (about_keys names) (sysctl_apply orig false)) ->
  logs h (about_keys names) (write_or_revert orig revert item).
Proof.
  intros Hin Hnested. destruct item as [name value]. cbn [fst] in Hin.
  unfold write_or_revert. apply logs_bind.
  - eapply logs_mono; [|apply logs_sysctl_write].
    intros l. apply about_keys_intro. exact Hin.
  - intros ok. destruct ok; cbn [negb]; [apply logs_ret|].
    apply logs_bind; [|intros; apply logs_ret].
    destruct revert; [|apply logs_ret].
    apply logs_bind; [|intros; apply logs_ret].
    apply Hnested. reflexivity.
Qed.

Lemma in_keys {V} (d : dict str V) (item : str * V) :
  In item d -> In (fst item) (keys d).
Proof. intros H. unfold keys. apply in_map. exact H. Qed.

Lemma keys_fold_setitem names vals (acc : dict str value) x :
  In x (keys (fold_left (fun d '(k, v) => setitem d k (VStr v))
                        (combine names vals) acc)) ->
  In x (keys acc) \/ In x names.
Proof.
  revert vals acc. induction names as [|n names IH]; intros vals acc.
  - cbn. tauto.
  - destruct vals as [|v vals]; cbn [combine fold_left]; [tauto|].
    intros H. apply IH in H. destruct H as [H|H].
    + apply keys_setitem_incl in H. destruct H as [->|H].
      * right. left. reflexivity.
      * left. exact H.
    + right. right. exact H.
Qed.

Lemma keys_snapshot_of names vals :
  incl (keys (snapshot_of names vals)) names.
Proof.
  intros x H. apply keys_fold_setitem in H. destruct H as [[]|H]. exact H.
Qed.

(** A batch talks to the executor about the keys of its set only,
    rollback included. *)
Lemma logs_sysctl_apply sysctl_dict revert :
  logs h (about_keys (keys sysctl_dict)) (sysctl_apply sysctl_dict revert).
Proof.
  assert (Hfalse : forall d, logs h (about_keys (keys d))
                                  (sysctl_apply d false)).
  { intros d. rewrite sysctl_apply_body.
    apply logs_bind; [apply logs_snapshot|]. intros orig.
    apply logs_for_in_return; [|apply logs_ret].
    intros item Hin. apply logs_write_or_revert.
    - apply in_keys. exact Hin.
    - discriminate. }
  destruct revert; [|apply Hfalse].
  rewrite sysctl_apply_body. intros w o w' t. rewrite exec_bind.
  rewrite exec_snapshot.
  destruct (exec h (read_all (keys sysctl_dict)) w)
    as [[[vals|e] w1] t1] eqn:E; cbn [and_then].
  - assert (Hsnap : exec h (snapshot sysctl_dict) w
                    = (Returned (snapshot_of (keys sysctl_dict) vals),
                       w1, t1))
      by (rewrite exec_snapshot, E; reflexivity).
    apply logs_snapshot in Hsnap.
    destruct (exec h (for_in_return _ _ _) w1) as [[o2 w2] t2] eqn:E2.
    intros H. inversion H; subst. apply Forall_app. split; [exact Hsnap|].
    revert E2. apply logs_for_in_return; [|apply logs_ret].
    intros item Hin. apply logs_write_or_revert.
    + apply in_keys. exact Hin.
    + intros _. eapply logs_mono; [|apply Hfalse].
      intros l. apply about_keys_incl. apply keys_snapshot_of.
  - assert (Hsnap : exec h (snapshot sysctl_dict) w = (Raised e, w1, t1))
      by (rewrite exec_snapshot, E; reflexivity).
    intros H. inversion H; subst. eapply logs_snapshot. exact Hsnap.
Qed.
End Logs.

(** ** The batch, claim by claim *)

Section Batch.
Variable World : Type.
Variable h : forall X, call X -> World -> outcome X * World.

(** A failing write under [revert=True]: the nested batch runs where
    the failed write left the world, and its boolean is dropped. *)
Lemma exec_apply_revert_fail pre k v post w orig w1 t1 w2 t2 w3 t3
      o w4 t4 :
  exec h (snapshot (pre ++ (k, v) :: post)) w = (Returned orig, w1, t1) ->
  exec h (write_all pre) w1 = (Returned true, w2, t2) ->
  exec h (sysctl_write k v) w2 = (Returned false, w3, t3) ->
  exec h (sysctl_apply orig false) w3 = (o, w4, t4) ->
  exec h (sysctl_apply (pre ++ (k, v) :: post) true) w
  = (match o with
     | Returned _ => Returned false
     | Raised e => Raised e
     end, w4, t1 ++ t2 ++ t3 ++ t4).
Proof.
  intros Hsnap Hpre Hfail Hnested.
  rewrite sysctl_apply_body.
  rewrite (exec_bind_returned _ _ _ _ _ _ _ _ Hsnap).
  unfold items. rewrite (exec_loop_prefix _ _ _ _ _ _ _ _ _ Hpre).
  cbn [and_then for_in_return]. rewrite exec_bind.
  unfold write_or_revert at 1.
  rewrite (exec_bind_returned _ _ _ _ _ _ _ _ Hfail).
  cbn [negb]. rewrite !exec_bind, Hnested.
  destruct o as [r|e]; cbn [and_then exec]; rewrite ?app_nil_r;
    reflexivity.
Qed.

Lemma exec_apply_norevert_fail pre k v post w orig w1 t1 w2 t2 w3 t3 :
  exec h (snapshot (pre ++ (k, v) :: post)) w = (Returned orig, w1, t1) ->
  exec h (write_all pre) w1 = (Returned true, w2, t2) ->
  exec h (sysctl_write k v) w2 = (Returned false, w3, t3) ->
  exec h (sysctl_apply (pre ++ (k, v) :: post) false) w
  = (Returned false, w3, t1 ++ t2 ++ t3).
Proof.
  intros Hsnap Hpre Hfail.
  rewrite sysctl_apply_body.
  rewrite (exec_bind_returned _ _ _ _ _ _ _ _ Hsnap).
  unfold items. rewrite (exec_loop_prefix _ _ _ _ _ _ _ _ _ Hpre).
  cbn [and_then for_in_return]. rewrite exec_bind.
  unfold write_or_revert at 1.
  rewrite (exec_bind_returned _ _ _ _ _ _ _ _ Hfail).
  cbn [negb bind exec and_then]. rewrite ?app_nil_r. reflexivity.
Qed.

Lemma exec_snapshot_nodup sysctl_dict w vals w1 t1 :
  NoDup (keys sysctl_dict) ->
  exec h (read_all (keys sysctl_dict)) w = (Returned vals, w1, t1) ->
  exec h (snapshot sysctl_dict) w
  = (Returned (combine (keys sysctl_dict) (List.map VStr vals)), w1, t1).
Proof.
  intros Hnd Hread. rewrite exec_snapshot, Hread.
  rewrite snapshot_of_nodup; [reflexivity | exact Hnd |].
  eapply read_all_length. exact Hread.
Qed.
End Batch.

(** C10: on an empty set [apply] is the program that returns true: it
    makes no call at all, for either value of [revert]. *)
Theorem sysctl_apply_empty World
    (h : forall X, call X -> World -> outcome X * World) revert w :
  sysctl_apply [] revert = Ret true
  /\ exec h (sysctl_apply [] revert) w = (Returned true, w, []).
Proof.
  assert (E : sysctl_apply [] revert = Ret true)
    by (rewrite sysctl_apply_body; reflexivity).
  split; [exact E | rewrite E; reflexivity].
Qed.

(** C5: with [revert=False] a batch is the snapshot followed by the
    writes in order up to the first failure, and nothing else, so the
    batch that a rollback runs cannot start a rollback of its own.  When a
    write fails the batch returns false and the log ends with that write.
    For [{A: "1"}] on a kernel that refuses writes to [A]: two queries,
    the refused set-command, false. *)
Theorem sysctl_apply_norevert :
  (forall World (h : forall X, call X -> World -> outcome X * World)
          sysctl_dict w,
      exec h (sysctl_apply sysctl_dict false) w
      = exec h (snapshot sysctl_dict ;; write_all sysctl_dict) w)
  /\ (forall World (h : forall X, call X -> World -> outcome X * World)
             pre k v post w vals w1 t1 w2 t2 w3 t3,
      exec h (read_all (keys (pre ++ (k, v) :: post))) w
      = (Returned vals, w1, t1) ->
      exec h (write_all pre) w1 = (Returned true, w2, t2) ->
      exec h (sysctl_write k v) w2 = (Returned false, w3, t3) ->
      exec h (sysctl_apply (pre ++ (k, v) :: post) false) w
      = (Returned false, w3, t1 ++ t2 ++ t3))
  /\ exec Stub.handler (sysctl_apply Scenario.one_key false)
          Scenario.A_refuses
     = (Returned false, Scenario.A_refuses,
        [query_call Scenario.A;
         query_call Scenario.A; set_call Scenario.A (u "1")]).
Proof.
  split; [|split].
  - intros World h d w. apply exec_apply_norevert.
  - intros World h pre k v post w vals w1 t1 w2 t2 w3 t3 Hread Hpre Hfail.
    eapply exec_apply_norevert_fail; [|exact Hpre|exact Hfail].
    rewrite exec_snapshot, Hread. reflexivity.
  - vm_compute. reflexivity.
Qed.

Lemma sysctl_apply_norevert_witness :
  exists w t,
    exec Stub.handler (sysctl_apply Scenario.two_keys false)
         Scenario.B_refuses = (Returned false, w, t).
Proof.
  eexists _, _.
  eapply (proj1 (proj2 sysctl_apply_norevert))
    with (pre := [(Scenario.A, VStr (u "1"))]) (k := Scenario.B)
         (v := VStr (u "2")) (post := []);
    vm_compute; reflexivity.
Defined.

(** C1 as amended: under [revert=True], when the writes before some key
    succeed and the write of that key fails, [apply] runs the nested batch
    [sysctl_apply snapshot false] over every key of the set paired with
    the value read for it before the first write.  When the nested batch
    returns, [apply] returns false whatever boolean that was; when the
    executor raises during it, [apply] raises the same exception.  For
    [{A: "1", B: "2"}] on a kernel that refuses writes to [B]: [A] is set
    to ["1"], [B] is refused, [A] is set back to ["0"], and the call
    returns false. *)
Theorem sysctl_apply_rollback :
  (forall World (h : forall X, call X -> World -> outcome X * World)
          pre k v post w vals w1 t1 w2 t2 w3 t3 o w4 t4,
      NoDup (keys (pre ++ (k, v) :: post)) ->
      exec h (read_all (keys (pre ++ (k, v) :: post))) w
      = (Returned vals, w1, t1) ->
      exec h (write_all pre) w1 = (Returned true, w2, t2) ->
      exec h (sysctl_write k v) w2 = (Returned false, w3, t3) ->
      exec h (sysctl_apply
                (combine (keys (pre ++ (k, v) :: post)) (List.map VStr vals))
                false) w3
      = (o, w4, t4) ->
      exec h (sysctl_apply (pre ++ (k, v) :: post) true) w
      = (match o with
         | Returned _ => Returned false
         | Raised e => Raised e
         end, w4, t1 ++ t2 ++ t3 ++ t4))
  /\ exec Stub.handler (sysctl_apply Scenario.two_keys true)
          Scenario.B_refuses
     = (Returned false,
        Stub.mkKernel (Stub.store Scenario.B_refuses) [Scenario.B] []
                      [(Scenario.A, b "1"); (Scenario.A, b "0")],
        [query_call Scenario.A; query_call Scenario.B;
         query_call Scenario.A; set_call Scenario.A (u "1");
         query_call Scenario.A;
         query_call Scenario.B; set_call Scenario.B (u "2");
         query_call Scenario.A; query_call Scenario.B;
         query_call Scenario.A; set_call Scenario.A (u "0");
         query_call Scenario.A;
         query_call Scenario.B]).
Proof.
  split.
  - intros World h pre k v post w vals w1 t1 w2 t2 w3 t3 o w4 t4
           Hnd Hread Hpre Hfail Hnested.
    exact (exec_apply_revert_fail World h pre k v post w _ w1 t1 w2 t2
             w3 t3 o w4 t4
             (exec_snapshot_nodup World h _ w vals w1 t1 Hnd Hread)
             Hpre Hfail Hnested).
  - vm_compute. reflexivity.
Qed.

Lemma sysctl_apply_rollback_witness :
  (exists w t,
      exec Stub.handler (sysctl_apply Scenario.forwarding true)
           Scenario.router = (Returned false, w, t))
  /\ exists w t,
      exec Fragile.handler (sysctl_apply Scenario.one_key true)
           (3%nat, Scenario.A_refuses) = (Raised FileNotFoundError, w, t).
Proof.
  split.
  - eexists _, _.
    eapply (proj1 sysctl_apply_rollback Stub.kernel Stub.handler
              [(Scenario.all_fwd, VStr (u "1"))]
              Scenario.osrelease (VStr (u "7"))
              [(Scenario.eth0_fwd, VStr (u "1"))]
              Scenario.router _ _ _ _ _ _ _ (Returned true)).
    + vm_compute. repeat constructor; cbn [In]; intuition discriminate.
    + vm_compute. reflexivity.
    + vm_compute. reflexivity.
    + vm_compute. reflexivity.
    + vm_compute. reflexivity.
  - eexists _, _.
    eapply (proj1 sysctl_apply_rollback (nat * Stub.kernel)%type
              Fragile.handler [] Scenario.A (VStr (u "1")) []
              (3%nat, Scenario.A_refuses) _ _ _ _ _ _ _
              (Raised FileNotFoundError)).
    + vm_compute. repeat constructor. intros [].
    + vm_compute. reflexivity.
    + vm_compute. reflexivity.
    + vm_compute. reflexivity.
    + vm_compute. reflexivity.
Defined.

(** C1 as stated fails: [{A: "1"}] on a kernel that refuses writes to
    [A] and loses its [sysctl] binary after three calls.  The write of
    [A] returns false, the first query of the rollback raises, and so
    does [apply]: it does not return false. *)
Lemma sysctl_apply_rollback_may_raise :
  ~ (forall World (h : forall X, call X -> World -> outcome X * World)
            pre k v post w vals w1 t1 w2 t2 w3 t3,
        NoDup (keys (pre ++ (k, v) :: post)) ->
        exec h (read_all (keys (pre ++ (k, v) :: post))) w
        = (Returned vals, w1, t1) ->
        exec h (write_all pre) w1 = (Returned true, w2, t2) ->
        exec h (sysctl_write k v) w2 = (Returned false, w3, t3) ->
        exists w4 t,
          exec h (sysctl_apply (pre ++ (k, v) :: post) true) w
          = (Returned false, w4, t)).
Proof.
  intros H.
  destruct (H (nat * Stub.kernel)%type Fragile.handler
              [] Scenario.A (VStr (u "1")) []
              (3%nat, Scenario.A_refuses)
              [u "0"] (2%nat, Scenario.A_refuses) [query_call Scenario.A]
              (2%nat, Scenario.A_refuses) []
              (0%nat, Scenario.A_refuses)
              [query_call Scenario.A; set_call Scenario.A (u "1")])
    as (w4 & t & Hexec).
  - vm_compute. repeat constructor. intros [].
  - vm_compute. reflexivity.
  - vm_compute. reflexivity.
  - vm_compute. reflexivity.
  - vm_compute in Hexec. discriminate.
Qed.

(** C6 as amended: the rollback is the batch [sysctl_apply snapshot
    false] over the whole snapshot.  The snapshot has the keys of the
    set, every one of them, in the caller's order; the rollback reads them
    all, then writes them back in that order up to the first write that
    fails; and every call it makes is about a key of the set. *)
Theorem rollback_covers_the_set World
    (h : forall X, call X -> World -> outcome X * World)
    pre k v post w orig w1 t1 w2 t2 w3 t3 o w4 t4 :
  NoDup (keys (pre ++ (k, v) :: post)) ->
  exec h (snapshot (pre ++ (k, v) :: post)) w = (Returned orig, w1, t1) ->
  exec h (write_all pre) w1 = (Returned true, w2, t2) ->
  exec h (sysctl_write k v) w2 = (Returned false, w3, t3) ->
  exec h (sysctl_apply orig false) w3 = (o, w4, t4) ->
  exec h (sysctl_apply (pre ++ (k, v) :: post) true) w
  = (match o with
     | Returned _ => Returned false
     | Raised e => Raised e
     end, w4, t1 ++ t2 ++ t3 ++ t4)
  /\ keys orig = keys (pre ++ (k, v) :: post)
  /\ exec h (sysctl_apply orig false) w3
     = exec h (snapshot orig ;; write_all orig) w3
  /\ Forall (about_keys (keys (pre ++ (k, v) :: post))) t4.
Proof.
  intros Hnd Hsnap Hpre Hfail Hnested.
  assert (Hkeys : keys orig = keys (pre ++ (k, v) :: post)).
  { rewrite exec_snapshot in Hsnap.
    destruct (exec h (read_all _) w) as [[[vals|e] wa] ta] eqn:E;
      [|discriminate].
    inversion Hsnap; subst.
    rewrite snapshot_of_nodup; [| exact Hnd | eapply read_all_length; exact E].
    apply keys_combine. rewrite length_map.
    eapply read_all_length. exact E. }
  split; [|split; [|split]].
  - eapply exec_apply_revert_fail; eassumption.
  - exact Hkeys.
  - apply exec_apply_norevert.
  - rewrite <- Hkeys. eapply logs_sysctl_apply. exact Hnested.
Qed.

Lemma rollback_covers_the_set_witness :
  exists w t,
    exec Stub.handler (sysctl_apply Scenario.forwarding true)
         Scenario.router = (Returned false, w, t)
    /\ In (set_call Scenario.eth0_fwd (u "1")) t.
Proof.
  eexists _, _. split.
  - eapply (rollback_covers_the_set Stub.kernel Stub.handler
              [(Scenario.all_fwd, VStr (u "1"))]
              Scenario.osrelease (VStr (u "7"))
              [(Scenario.eth0_fwd, VStr (u "1"))]
              Scenario.router _ _ _ _ _ _ _ (Returned true)).
    + vm_compute. repeat constructor; cbn [In]; intuition discriminate.
    + vm_compute. reflexivity.
    + vm_compute. reflexivity.
    + vm_compute. reflexivity.
    + vm_compute. reflexivity.
  - vm_compute. do 16 right. left. reflexivity.
Defined.

(** C6 as stated fails: on the forwarding scenario the write of
    [kernel.osrelease] fails before [eth0] is attempted, and the rollback
    still queries [eth0] and sends it a set-command. *)
Lemma rollback_not_only_attempted :
  ~ (forall World (h : forall X, call X -> World -> outcome X * World)
            pre k v post w orig w1 t1 w2 t2 w3 t3 o w4 t4,
        NoDup (keys (pre ++ (k, v) :: post)) ->
        exec h (snapshot (pre ++ (k, v) :: post)) w
        = (Returned orig, w1, t1) ->
        exec h (write_all pre) w1 = (Returned true, w2, t2) ->
        exec h (sysctl_write k v) w2 = (Returned false, w3, t3) ->
        exec h (sysctl_apply orig false) w3 = (o, w4, t4) ->
        Forall (about_keys (keys (pre ++ [(k, v)]))) t4).
Proof.
  intros H.
  assert (F : Forall (about_keys [Scenario.all_fwd; Scenario.osrelease])
                     [query_call Scenario.all_fwd;
                      query_call Scenario.osrelease;
                      query_call Scenario.eth0_fwd;
                      query_call Scenario.all_fwd;
                      set_call Scenario.all_fwd (u "0");
                      query_call Scenario.all_fwd;
                      query_call Scenario.osrelease;
                      query_call Scenario.eth0_fwd;
                      set_call Scenario.eth0_fwd (u "1");
                      query_call Scenario.eth0_fwd]).
  { eapply (H Stub.kernel Stub.handler
              [(Scenario.all_fwd, VStr (u "1"))]
              Scenario.osrelease (VStr (u "7"))
              [(Scenario.eth0_fwd, VStr (u "1"))]
              Scenario.router).
    - vm_compute. repeat constructor; cbn [In]; intuition discriminate.
    - vm_compute. reflexivity.
    - vm_compute. reflexivity.
    - vm_compute. reflexivity.
    - vm_compute. reflexivity. }
  rewrite Forall_forall in F.
  destruct (F (set_call Scenario.eth0_fwd (u "1")))
    as (name & Hin & Habout).
  { do 8 right. left. reflexivity. }
  destruct Hin as [<-|[<-|[]]]; destruct Habout as [Hq|[x Hs]];
    vm_compute in Hq || vm_compute in Hs; discriminate.
Qed.

(** ** The single-key operations on the stub kernel *)

Lemma sysctl_write_noop_witness :
  exec Stub.handler (sysctl_write Scenario.A (VInt 1)) Scenario.A_is_1
  = (Returned true, Scenario.A_is_1, [query_call Scenario.A]).
Proof.
  apply (sysctl_write_noop Stub.kernel Stub.handler
           Scenario.A (VInt 1) Scenario.A_is_1 Scenario.A_is_1
           [query_call Scenario.A]).
  vm_compute. reflexivity.
Defined.

Lemma sysctl_write_verified_witness :
  exists ok w t,
    exec Stub.handler (sysctl_write Scenario.A (VStr (u "1")))
         Scenario.A_is_0 = (Returned ok, w, t)
    /\ ok = true.
Proof.
  destruct (sysctl_write_verified Stub.kernel Stub.handler
              Scenario.A (VStr (u "1")) Scenario.A_is_0
              (u "0") Scenario.A_is_0 [query_call Scenario.A]
              (mkCompleted 0 None)
              (Stub.mkKernel [(Scenario.A, b "1")] [] []
                             [(Scenario.A, b "1")])
              (u "1")
              (Stub.mkKernel [(Scenario.A, b "1")] [] []
                             [(Scenario.A, b "1")])
              [query_call Scenario.A])
    as (ok & Hexec & Heq & _).
  - vm_compute. reflexivity.
  - vm_compute. discriminate.
  - vm_compute. reflexivity.
  - reflexivity.
  - vm_compute. reflexivity.
  - exists ok. eexists _, _. split; [exact Hexec|].
    apply Heq. reflexivity.
Defined.

Lemma sysctl_read_propagates_witness :
  exec Stub.no_binary (sysctl_read Scenario.A) tt
  = (Raised FileNotFoundError, tt, [query_call Scenario.A])
  /\ exec Stub.handler (sysctl_read (u "no.such.key")) Scenario.A_is_0
     = (Returned [], Scenario.A_is_0, [query_call (u "no.such.key")]).
Proof.
  split.
  - apply (proj1 (sysctl_read_propagates unit Stub.no_binary
                    Scenario.A tt)).
    reflexivity.
  - apply (proj2 (sysctl_read_propagates Stub.kernel Stub.handler
                    (u "no.such.key") Scenario.A_is_0))
      with (cp := mkCompleted 255 (Some [])) (raw := []).
    + vm_compute. reflexivity.
    + reflexivity.
    + reflexivity.
Defined.

(** C3 as stated fails: the query of a key that does not exist exits
    with status 255, and [read] returns the (empty) output all the same. *)
Lemma sysctl_read_ignores_exit_status :
  ~ (forall World (h : forall X, call X -> World -> outcome X * World)
            name w cp w',
        h _ (spawn (query_args name) true) w = (Returned cp, w') ->
        returncode cp <> 0 ->
        exists e w'' t, exec h (sysctl_read name) w = (Raised e, w'', t)).
Proof.
  intros H.
  destruct (H Stub.kernel Stub.handler (u "no.such.key") Scenario.A_is_0
              (mkCompleted 255 (Some [])) Scenario.A_is_0)
    as (e & w'' & t & Hexec).
  - vm_compute. reflexivity.
  - cbn. discriminate.
  - vm_compute in Hexec. discriminate.
Qed.


(** ** Integers as decimal strings *)
Lemma u_cons (c : ascii) (s : string) : u (String c s) = N_of_ascii c :: u s.
Proof. reflexivity. Qed.

Lemma digits_value_digit (k : N) (s : str) (acc : N) :
  (k <= 9)%N ->
  digits_value ((48 + k)%N :: s) acc = digits_value s (10 * acc + k)%N.
Proof.
  intros Hk. cbn [digits_value].
  replace ((48 <=? 48 + k)%N && (48 + k <=? 57)%N) with true
    by (symmetry; apply andb_true_iff; split; apply N.leb_le; lia).
  f_equal. lia.
Qed.

Ltac digit_step :=
  rewrite u_cons;
  match goal with
  | |- context [N_of_ascii ?c] =>
    let v := eval vm_compute in (N_of_ascii c - 48)%N in
    change (N_of_ascii c) with (48 + v)%N
  end;
  rewrite digits_value_digit by lia.

Lemma digits_value_acc (d : Decimal.uint) (acc : positive) :
  digits_value (u (NilEmpty.string_of_uint d)) (Npos acc)
  = Some (Npos (Pos.of_uint_acc d acc)).
Proof.
  revert acc. induction d; intros acc;
    cbn [NilEmpty.string_of_uint Pos.of_uint_acc]; [reflexivity| ..];
    digit_step;
    (etransitivity; [|apply IHd]); f_equal; lia.
Qed.

Lemma digits_value_uint (d : Decimal.uint) :
  digits_value (u (NilEmpty.string_of_uint d)) 0 = Some (Pos.of_uint d).
Proof.
  induction d; cbn [NilEmpty.string_of_uint Pos.of_uint]; [reflexivity| ..];
    digit_step; [exact IHd | ..];
    (etransitivity; [|apply digits_value_acc]); f_equal.
Qed.

Lemma digits_of_positive (p : positive) :
  exists c s,
    u (NilZero.string_of_uint (Pos.to_uint p)) = c :: s
    /\ (48 <= c)%N
    /\ digits_value (c :: s) 0 = Some (Npos p).
Proof.
  pose proof (DecimalPos.Unsigned.of_to p) as Hof.
  pose proof (DecimalPos.Unsigned.to_uint_nonnil p) as Hnil.
  pose proof (digits_value_uint (Pos.to_uint p)) as Hval.
  rewrite Hof in Hval.
  destruct (Pos.to_uint p) eqn:E; [congruence| ..];
    cbn [NilZero.string_of_uint NilEmpty.string_of_uint] in *;
    rewrite u_cons in *;
    eexists _, _; (split; [reflexivity | split; [vm_compute; discriminate | exact Hval]]).
Qed.

Lemma decimal_value_str_of_int (n : Z) :
  decimal_value (str_of_int n) = Some n.
Proof.
  unfold str_of_int. destruct n as [|p|p]; [reflexivity| |];
    cbn [Z.to_int NilZero.string_of_int];
    destruct (digits_of_positive p) as (c & s & Hs & Hc & Hval).
  - rewrite Hs. unfold decimal_value.
    replace (c =? 45)%N with false by (symmetry; apply N.eqb_neq; lia).
    rewrite Hval. reflexivity.
  - rewrite u_cons, Hs. unfold decimal_value.
    change (N_of_ascii "-" =? 45)%N with true. cbv iota.
    rewrite Hval. reflexivity.
Qed.

(** ** Secure boot *)

Lemma startswith_spec (p s : str) :
  startswith p s = true <-> exists post, s = p ++ post.
Proof.
  revert s. induction p as [|x p IH]; intros s; cbn [startswith].
  - split; [intros _; exists s; reflexivity | reflexivity].
  - destruct s as [|y s].
    + split; [discriminate | intros [post H]; discriminate].
    + rewrite andb_true_iff, N.eqb_eq, IH. split.
      * intros [-> [post ->]]. exists post. reflexivity.
      * intros [post H]. cbn in H. inversion H; subst.
        split; [reflexivity | exists post; reflexivity].
Qed.

(** [needle in hay] holds exactly when [hay] has [needle] as a
    substring. *)
Lemma contains_spec (needle hay : str) :
  contains needle hay = true <-> exists pre post, hay = pre ++ needle ++ post.
Proof.
  induction hay as [|c hay IH]; cbn [contains];
    rewrite orb_true_iff, startswith_spec.
  - split.
    + intros [[post H]|H]; [|discriminate]. exists [], post. exact H.
    + intros (pre & post & H). left.
      destruct pre as [|x pre]; [|discriminate].
      exists post. exact H.
  - rewrite IH. split.
    + intros [[post H]|(pre & post & H)].
      * exists [], post. exact H.
      * exists (c :: pre), post. cbn. rewrite H. reflexivity.
    + intros (pre & post & H). destruct pre as [|x pre].
      * left. exists post. exact H.
      * right. cbn in H. inversion H; subst. exists pre, post. reflexivity.
Qed.

(** C9: without UEFI the answer is false and the firmware check is the
    only call made; with UEFI the status query runs and the answer is
    true exactly when its output has ["enabled"] as a substring. *)
Theorem get_secure_boot_state_spec World
    (h : forall X, call X -> World -> outcome X * World) w :
  (forall w1,
      h _ is_uefi_system w = (Returned false, w1) ->
      exec h get_secure_boot_state w
      = (Returned false, w1, [Called is_uefi_system]))
  /\ (forall w1 out w2,
      h _ is_uefi_system w = (Returned true, w1) ->
      h _ (cmd (u "mokutil --sb-state")) w1 = (Returned out, w2) ->
      exists state,
        exec h get_secure_boot_state w
        = (Returned state, w2,
           [Called is_uefi_system; Called (cmd (u "mokutil --sb-state"))])
        /\ (state = true <-> exists pre post, out = pre ++ u "enabled" ++ post)).
Proof.
  split.
  - intros w1 H. unfold get_secure_boot_state, trigger.
    cbn [bind exec]. rewrite H. reflexivity.
  - intros w1 out w2 Huefi Hcmd. exists (contains (u "enabled") out). split.
    + unfold get_secure_boot_state, trigger.
      cbn [bind exec]. rewrite Huefi. cbn [negb bind exec].
      rewrite Hcmd. reflexivity.
    + apply contains_spec.
Qed.

Lemma get_secure_boot_state_witness :
  exec Stub.probe get_secure_boot_state Scenario.legacy_boot
  = (Returned false, Scenario.legacy_boot, [Called is_uefi_system])
  /\ exists t,
      exec Stub.probe get_secure_boot_state Scenario.two_cores
      = (Returned true, Scenario.two_cores, t).
Proof.
  split.
  - apply (proj1 (get_secure_boot_state_spec Stub.machine Stub.probe
                    Scenario.legacy_boot)).
    reflexivity.
  - destruct (proj2 (get_secure_boot_state_spec Stub.machine Stub.probe
                       Scenario.two_cores)
                    Scenario.two_cores (u "SecureBoot enabled")
                    Scenario.two_cores)
      as (state & Hexec & Hiff).
    + reflexivity.
    + reflexivity.
    + eexists. rewrite Hexec. f_equal. f_equal. f_equal.
      apply Hiff. exists (u "SecureBoot "), []. reflexivity.
Defined.

(** ** Load averages *)

Lemma digit_or_dot_range (c : N) :
  Re.is_digit_or_dot c = true -> (46 <= c <= 57)%N.
Proof.
  unfold Re.is_digit_or_dot.
  rewrite orb_true_iff, andb_true_iff, !N.leb_le, N.eqb_eq. lia.
Qed.

Lemma digit_or_dot_not_space (c : N) :
  Re.is_digit_or_dot c = true -> Re.is_space c = false.
Proof.
  intros H. apply digit_or_dot_range in H. unfold Re.is_space.
  repeat match goal with
         | |- context [(?x <=? ?y)%N] =>
           destruct (N.leb_spec x y); try lia
         | |- context [(?x =? ?y)%N] =>
           destruct (N.eqb_spec x y); try lia
         end; reflexivity.
Qed.

Lemma space_not_digit_or_dot (c : N) :
  Re.is_space c = true -> Re.is_digit_or_dot c = false.
Proof.
  intros H. destruct (Re.is_digit_or_dot c) eqn:E; [|reflexivity].
  apply digit_or_dot_not_space in E. congruence.
Qed.

Lemma consumed_app (run rest : str) : Re.consumed (run ++ rest) rest = run.
Proof.
  unfold Re.consumed. rewrite length_app.
  replace (List.length run + List.length rest - List.length rest)%nat
    with (List.length run + 0)%nat by lia.
  rewrite firstn_app_2. cbn. apply app_nil_r.
Qed.

(** A greedy run takes all of [run] when the rest of the pattern
    accepts what follows. *)
Lemma star_greedy {R} set (run rest : str) (k : str -> option R) r :
  forallb set run = true -> stops set rest = true ->
  k rest = Some r ->
  Re.star set (run ++ rest) k = Some r.
Proof.
  intros Hrun Hstop Hk. induction run as [|c run IH]; cbn [app].
  - destruct rest as [|c rest]; cbn [Re.star]; [exact Hk|].
    cbn in Hstop. apply negb_true_iff in Hstop. rewrite Hstop. exact Hk.
  - cbn in Hrun. apply andb_true_iff in Hrun. destruct Hrun as [Hc Hrun].
    cbn [Re.star]. rewrite Hc, (IH Hrun). reflexivity.
Qed.

Lemma match_star set run rest g k r :
  forallb set run = true -> stops set rest = true ->
  k rest g = Some r ->
  Re.match_here (Re.Star set) (run ++ rest) g k = Some r.
Proof.
  intros Hrun Hstop Hk. cbn [Re.match_here].
  apply star_greedy; assumption.
Qed.

Lemma match_plus set run rest g k r :
  run <> [] -> forallb set run = true -> stops set rest = true ->
  k rest g = Some r ->
  Re.match_here (Re.Plus set) (run ++ rest) g k = Some r.
Proof.
  intros Hne Hrun Hstop Hk. destruct run as [|c run]; [congruence|].
  cbn in Hrun. apply andb_true_iff in Hrun. destruct Hrun as [Hc Hrun].
  cbn [Re.match_here app]. rewrite Hc.
  apply star_greedy; assumption.
Qed.

Lemma match_group_plus name set run rest g k r :
  run <> [] -> forallb set run = true -> stops set rest = true ->
  k rest (g ++ [(name, run)]) = Some r ->
  Re.match_here (Re.Group name (Re.Plus set)) (run ++ rest) g k = Some r.
Proof.
  intros Hne Hrun Hstop Hk. cbn [Re.match_here].
  change (Re.match_here (Re.Plus set) (run ++ rest) g
            (fun s' g' => k s' (g' ++ [(name, Re.consumed (run ++ rest) s')]))
          = Some r).
  apply match_plus; try assumption.
  rewrite consumed_app. exact Hk.
Qed.

Lemma match_seq r1 r2 s g k :
  Re.match_here (Re.Seq r1 r2) s g k
  = Re.match_here r1 s g (fun s' g' => Re.match_here r2 s' g' k).
Proof. reflexivity. Qed.

Lemma star_always {R} set (s : str) (r : R) :
  Re.star set s (fun _ => Some r) = Some r.
Proof.
  induction s as [|c s IH]; cbn [Re.star]; [reflexivity|].
  destruct (set c); [rewrite IH|]; reflexivity.
Qed.

Lemma search_here r s g :
  Re.match_here r s [] (fun _ g' => Some g') = Some g ->
  Re.search r s = Some g.
Proof. intros H. destruct s; cbn [Re.search]; rewrite H; reflexivity. Qed.

Lemma is_field_inv (f : str) :
  is_field f = true -> f <> [] /\ forallb Re.is_digit_or_dot f = true.
Proof.
  unfold is_field. rewrite andb_true_iff. intros [Hne Hall].
  split; [|exact Hall]. intros ->. discriminate.
Qed.

Lemma is_separator_inv (ws : str) :
  is_separator ws = true -> ws <> [] /\ forallb Re.is_space ws = true.
Proof.
  unfold is_separator. rewrite andb_true_iff. intros [Hne Hall].
  split; [|exact Hall]. intros ->. discriminate.
Qed.

Lemma field_stops_space (f rest : str) :
  is_field f = true -> stops Re.is_space (f ++ rest) = true.
Proof.
  intros H. apply is_field_inv in H. destruct H as [Hne Hall].
  destruct f as [|c f]; [congruence|]. cbn in *.
  apply andb_true_iff in Hall. destruct Hall as [Hc _].
  rewrite (digit_or_dot_not_space _ Hc). reflexivity.
Qed.

Lemma separator_stops_field (ws rest : str) :
  is_separator ws = true -> stops Re.is_digit_or_dot (ws ++ rest) = true.
Proof.
  intros H. apply is_separator_inv in H. destruct H as [Hne Hall].
  destruct ws as [|c ws]; [congruence|]. cbn in *.
  apply andb_true_iff in Hall. destruct Hall as [Hc _].
  rewrite (space_not_digit_or_dot _ Hc). reflexivity.
Qed.

(** On a line that starts with three fields the pattern captures
    them. *)
Lemma search_loadavg ws0 one ws1 five ws2 fifteen rest :
  forallb Re.is_space ws0 = true ->
  is_field one = true -> is_separator ws1 = true ->
  is_field five = true -> is_separator ws2 = true ->
  is_field fifteen = true -> ends_field rest = true ->
  Re.search loadavg_pattern
            (ws0 ++ one ++ ws1 ++ five ++ ws2 ++ fifteen ++ rest)
  = Some [("one"%string, one); ("five"%string, five);
          ("fifteen"%string, fifteen)].
Proof.
  intros Hws0 H1 Hs1 H5 Hs2 H15 Hrest.
  destruct (is_field_inv _ H1) as [Hne1 Hall1].
  destruct (is_field_inv _ H5) as [Hne5 Hall5].
  destruct (is_field_inv _ H15) as [Hne15 Hall15].
  destruct (is_separator_inv _ Hs1) as [Hnes1 Halls1].
  destruct (is_separator_inv _ Hs2) as [Hnes2 Halls2].
  apply search_here. unfold loadavg_pattern.
  rewrite match_seq. apply match_star;
    [exact Hws0 | apply field_stops_space; exact H1 |]. cbv beta.
  rewrite match_seq. apply match_group_plus;
    [exact Hne1 | exact Hall1 | apply separator_stops_field; exact Hs1 |].
  cbv beta.
  rewrite match_seq. apply match_plus;
    [exact Hnes1 | exact Halls1 | apply field_stops_space; exact H5 |].
  cbv beta.
  rewrite match_seq. apply match_group_plus;
    [exact Hne5 | exact Hall5 | apply separator_stops_field; exact Hs2 |].
  cbv beta.
  rewrite match_seq. apply match_plus;
    [exact Hnes2 | exact Halls2 | apply field_stops_space; exact H15 |].
  cbv beta.
  rewrite match_seq. apply match_group_plus;
    [exact Hne15 | exact Hall15 | exact Hrest |].
  cbv beta. cbn [Re.match_here]. apply star_always.
Qed.

(** C8: on a line that starts with three fields, [get_load_averages]
    reads the file, asks for the core count, and returns the three
    fields, each parsed as a float and divided by the core count, under
    the keys 1, 5 and 15.  For ["1.0 2.0 3.0 4/400 123"] and two cores
    that is [{1: 0.5, 5: 1.0, 15: 1.5}]. *)
Theorem get_load_averages_spec :
  (forall World (h : forall X, call X -> World -> outcome X * World)
          w data w1 core_count w2
          ws0 one ws1 five ws2 fifteen rest x1 x5 x15 c,
      h _ (read_file (u "/proc/loadavg")) w = (Returned data, w1) ->
      h _ get_core_count w1 = (Returned core_count, w2) ->
      data = ws0 ++ one ++ ws1 ++ five ++ ws2 ++ fifteen ++ rest ->
      forallb Re.is_space ws0 = true ->
      is_field one = true -> is_separator ws1 = true ->
      is_field five = true -> is_separator ws2 = true ->
      is_field fifteen = true -> ends_field rest = true ->
      Float.of_str one = Some x1 ->
      Float.of_str five = Some x5 ->
      Float.of_str fifteen = Some x15 ->
      Float.of_int core_count = Some c -> Float.is_zero c = false ->
      exec h get_load_averages w
      = (Returned [(1, Float.div x1 c); (5, Float.div x5 c);
                   (15, Float.div x15 c)],
         w2, [Called (read_file (u "/proc/loadavg")); Called get_core_count]))
  /\ Float.of_str (u "0.5") = Some (S754_finite false 4503599627370496 (-53))
  /\ Float.of_str (u "1.0") = Some (S754_finite false 4503599627370496 (-52))
  /\ Float.of_str (u "1.5") = Some (S754_finite false 6755399441055744 (-52))
  /\ exec Stub.probe get_load_averages Scenario.two_cores
     = (Returned [(1, S754_finite false 4503599627370496 (-53));
                  (5, S754_finite false 4503599627370496 (-52));
                  (15, S754_finite false 6755399441055744 (-52))],
        Scenario.two_cores,
        [Called (read_file (u "/proc/loadavg")); Called get_core_count]).
Proof.
  split; [|repeat split; vm_compute; reflexivity].
  intros World h w data w1 core_count w2 ws0 one ws1 five ws2 fifteen rest
         x1 x5 x15 c Hread Hcores -> Hws0 H1 Hs1 H5 Hs2 H15 Hrest
         Hx1 Hx5 Hx15 Hc Hnz.
  unfold get_load_averages, trigger. cbn [bind exec].
  rewrite Hread. cbv zeta.
  rewrite (search_loadavg _ _ _ _ _ _ _ Hws0 H1 Hs1 H5 Hs2 H15 Hrest).
  cbn [bind exec]. rewrite Hcores.
  unfold subscript, float_of, truediv.
  cbn [Re.group String.eqb Ascii.eqb Bool.eqb].
  do 6 (cbn [bind]; rewrite ?Hx1, ?Hx5, ?Hx15, ?Hc, ?Hnz).
  reflexivity.
Qed.

Lemma get_load_averages_witness :
  exists res,
    exec Stub.probe get_load_averages Scenario.two_cores
    = (Returned res, Scenario.two_cores,
       [Called (read_file (u "/proc/loadavg")); Called get_core_count]).
Proof.
  eexists.
  eapply (proj1 get_load_averages_spec Stub.machine Stub.probe
            Scenario.two_cores (u "1.0 2.0 3.0 4/400 123")
            Scenario.two_cores 2 Scenario.two_cores
            [] (u "1.0") (u " ") (u "2.0") (u " ") (u "3.0")
            (u " 4/400 123"));
    vm_compute; reflexivity.
Defined.

(** ** More on the single-key write *)

Section WriteFacts.
Variable World : Type.
Variable h : forall X, call X -> World -> outcome X * World.

(** Every run of a write, step by step. *)
Lemma exec_sysctl_write name value w :
  exec h (sysctl_write name value) w
  = match exec h (sysctl_read name) w with
    | (Raised e, w1, t1) => (Raised e, w1, t1)
    | (Returned cur, w1, t1) =>
      if str_eqb cur (to_str value) then (Returned true, w1, t1)
      else
        match h _ (spawn (set_args name (to_str value)) false) w1 with
        | (Raised e, w2) =>
          (Raised e, w2, t1 ++ [set_call name (to_str value)])
        | (Returned cp, w2) =>
          if negb (returncode cp =? 0)
          then (Returned false, w2, t1 ++ [set_call name (to_str value)])
          else
            match exec h (sysctl_read name) w2 with
            | (Raised e, w3, t3) =>
              (Raised e, w3, t1 ++ set_call name (to_str value) :: t3)
            | (Returned new, w3, t3) =>
              (Returned (str_eqb new (to_str value)), w3,
               t1 ++ set_call name (to_str value) :: t3)
            end
        end
    end.
Proof.
  unfold sysctl_write. cbv zeta. rewrite exec_bind.
  destruct (exec h (sysctl_read name) w) as [[[cur|e] w1] t1];
    cbn [and_then]; [|reflexivity].
  destruct (str_eqb cur (to_str value)).
  { cbn [exec]. rewrite app_nil_r. reflexivity. }
  rewrite exec_bind, exec_run_unchecked.
  fold (set_args name (to_str value)).
  fold (set_call name (to_str value)).
  destruct (h _ (spawn (set_args name (to_str value)) false) w1)
    as [[cp|e] w2]; cbn [and_then]; [|reflexivity].
  destruct (negb (returncode cp =? 0)).
  { cbn [exec]. reflexivity. }
  rewrite exec_bind.
  destruct (exec h (sysctl_read name) w2) as [[[new|e] w3] t3];
    cbn [and_then]; [|reflexivity].
  destruct (str_eqb new (to_str value)); cbn [exec];
    rewrite app_nil_r; reflexivity.
Qed.

(** X1: When the set-command exits with a non-zero status, [write] returns
    false at once: the value is not read again. *)
Theorem sysctl_write_set_refused name value w cur w1 t1 cp w2 :
  exec h (sysctl_read name) w = (Returned cur, w1, t1) ->
  cur <> to_str value ->
  h _ (spawn (set_args name (to_str value)) false) w1 = (Returned cp, w2) ->
  returncode cp <> 0 ->
  exec h (sysctl_write name value) w
  = (Returned false, w2, [query_call name; set_call name (to_str value)]).
Proof.
  intros Hread Hneq Hset Hrc.
  pose proof (sysctl_read_log _ _ _ _ _ _ _ Hread) as ->.
  rewrite exec_sysctl_write, Hread.
  apply str_eqb_neq in Hneq. rewrite Hneq, Hset.
  apply Z.eqb_neq in Hrc. rewrite Hrc. reflexivity.
Qed.

(** X2: A write that returns true has just read the target value: the world
    it leaves is the one in which a query of the key answered the
    target. *)
Theorem sysctl_write_true_is_verified name value w w' t :
  exec h (sysctl_write name value) w = (Returned true, w', t) ->
  exists w0,
    exec h (sysctl_read name) w0
    = (Returned (to_str value), w', [query_call name])
    /\ (t = [query_call name]
        \/ t = [query_call name; set_call name (to_str value);
                query_call name]).
Proof.
  rewrite exec_sysctl_write.
  destruct (exec h (sysctl_read name) w) as [[[cur|e] w1] t1] eqn:E1;
    [|discriminate].
  pose proof (sysctl_read_log _ _ _ _ _ _ _ E1) as ->.
  destruct (str_eqb cur (to_str value)) eqn:Ecur.
  - intros H. inversion H; subst. apply str_eqb_eq in Ecur. subst cur.
    exists w. split; [exact E1 | left; reflexivity].
  - destruct (h _ (spawn (set_args name (to_str value)) false) w1)
      as [[cp|e] w2]; [|discriminate].
    destruct (negb (returncode cp =? 0)); [discriminate|].
    destruct (exec h (sysctl_read name) w2) as [[[new|e] w3] t3] eqn:E3;
      [|discriminate].
    pose proof (sysctl_read_log _ _ _ _ _ _ _ E3) as ->.
    intros H. inversion H as [[Hnew Hw Ht]]. subst w3.
    apply str_eqb_eq in Hnew. subst new.
    exists w2. split; [exact E3 | right; reflexivity].
Qed.

(** X3: However a write ends, it has made one, two or three calls: the
    query, the set-command for the target, the query again.  It never
    sends a second set-command. *)
Theorem sysctl_write_log name value w o w' t :
  exec h (sysctl_write name value) w = (o, w', t) ->
  t = [query_call name]
  \/ t = [query_call name; set_call name (to_str value)]
  \/ t = [query_call name; set_call name (to_str value); query_call name].
Proof.
  rewrite exec_sysctl_write.
  destruct (exec h (sysctl_read name) w) as [[[cur|e] w1] t1] eqn:E1;
    pose proof (sysctl_read_log _ _ _ _ _ _ _ E1) as ->;
    [|intros H; inversion H; left; reflexivity].
  destruct (str_eqb cur (to_str value));
    [intros H; inversion H; left; reflexivity|].
  destruct (h _ (spawn (set_args name (to_str value)) false) w1)
    as [[cp|e] w2]; [|intros H; inversion H; right; left; reflexivity].
  destruct (negb (returncode cp =? 0));
    [intros H; inversion H; right; left; reflexivity|].
  destruct (exec h (sysctl_read name) w2) as [[[new|e] w3] t3] eqn:E3;
    pose proof (sysctl_read_log _ _ _ _ _ _ _ E3) as ->;
    intros H; inversion H; right; right; reflexivity.
Qed.
End WriteFacts.

Lemma sysctl_write_set_refused_witness :
  exec Stub.handler (sysctl_write Scenario.A (VInt 1)) Scenario.A_refuses
  = (Returned false, Scenario.A_refuses,
     [query_call Scenario.A; set_call Scenario.A (u "1")]).
Proof.
  apply (sysctl_write_set_refused Stub.kernel Stub.handler
           Scenario.A (VInt 1) Scenario.A_refuses (u "0")
           Scenario.A_refuses [query_call Scenario.A]
           (mkCompleted 255 None) Scenario.A_refuses).
  - vm_compute. reflexivity.
  - vm_compute. discriminate.
  - vm_compute. reflexivity.
  - cbn. discriminate.
Defined.

Lemma sysctl_write_true_is_verified_witness :
  exists w0,
    exec Stub.handler (sysctl_read Scenario.A) w0
    = (Returned (u "1"),
       Stub.mkKernel [(Scenario.A, b "1")] [] [] [(Scenario.A, b "1")],
       [query_call Scenario.A]).
Proof.
  destruct (sysctl_write_true_is_verified Stub.kernel Stub.handler
              Scenario.A (VStr (u "1")) Scenario.A_is_0
              (Stub.mkKernel [(Scenario.A, b "1")] [] []
                             [(Scenario.A, b "1")])
              [query_call Scenario.A; set_call Scenario.A (u "1");
               query_call Scenario.A])
    as (w0 & Hread & _).
  - vm_compute. reflexivity.
  - exists w0. exact Hread.
Defined.

Lemma sysctl_write_log_witness :
  [query_call Scenario.A; set_call Scenario.A (u "1")]
  = [query_call Scenario.A]
  \/ [query_call Scenario.A; set_call Scenario.A (u "1")]
     = [query_call Scenario.A; set_call Scenario.A (u "1")]
  \/ [query_call Scenario.A; set_call Scenario.A (u "1")]
     = [query_call Scenario.A; set_call Scenario.A (u "1");
        query_call Scenario.A].
Proof.
  apply (sysctl_write_log Stub.kernel Stub.handler
           Scenario.A (VStr (u "1")) Scenario.A_refuses
           (Returned false) Scenario.A_refuses).
  vm_compute. reflexivity.
Defined.

(** ** More on the batch *)

Section BatchFacts.
Variable World : Type.
Variable h : forall X, call X -> World -> outcome X * World.

(** The loop returns true only by running out of items. *)
Lemma exec_loop_true orig revert its w w' t :
  exec h (for_in_return its (write_or_revert orig revert) (Ret true)) w
  = (Returned true, w', t) ->
  exec h (write_all its) w = (Returned true, w', t).
Proof.
  revert w t. induction its as [|[k v] its IH]; intros w t H.
  - exact H.
  - cbn [for_in_return] in H. apply exec_bind_inv in H.
    destruct H as (r & w1 & t1 & t2 & Hstep & Hrest & ->).
    unfold write_or_revert in Hstep. apply exec_bind_inv in Hstep.
    destruct Hstep as (ok & wa & ta & tb & Hwrite & Hafter & ->).
    destruct ok; cbn [negb] in Hafter.
    + inversion Hafter; subst. apply IH in Hrest.
      cbn [write_all]. rewrite exec_bind, Hwrite. cbn [and_then].
      rewrite Hrest, app_nil_r. reflexivity.
    + apply exec_bind_inv in Hafter.
      destruct Hafter as (x & wb & tc & td & _ & Hret & _).
      inversion Hret; subst. inversion Hrest.
Qed.

Lemma exec_loop_all_written orig revert its w w' t :
  exec h (write_all its) w = (Returned true, w', t) ->
  exec h (for_in_return its (write_or_revert orig revert) (Ret true)) w
  = (Returned true, w', t).
Proof.
  intros H.
  pose proof (exec_loop_prefix World h orig revert its [] w w' t H) as E.
  rewrite app_nil_r in E. rewrite E. cbn. rewrite app_nil_r. reflexivity.
Qed.

(** X4: A batch returns true exactly when the snapshot could be taken and
    then every write, in order, returned true; its run is then the
    snapshot followed by the writes, whatever [revert] is. *)
Theorem sysctl_apply_true_iff sysctl_dict revert w w' t :
  exec h (sysctl_apply sysctl_dict revert) w = (Returned true, w', t)
  <-> exists orig w1 t1 t2,
        exec h (snapshot sysctl_dict) w = (Returned orig, w1, t1)
        /\ exec h (write_all sysctl_dict) w1 = (Returned true, w', t2)
        /\ t = t1 ++ t2.
Proof.
  rewrite sysctl_apply_body. split.
  - intros H. apply exec_bind_inv in H.
    destruct H as (orig & w1 & t1 & t2 & Hsnap & Hloop & ->).
    exists orig, w1, t1, t2. split; [exact Hsnap|]. split; [|reflexivity].
    eapply exec_loop_true. exact Hloop.
  - intros (orig & w1 & t1 & t2 & Hsnap & Hall & ->).
    rewrite exec_bind, Hsnap. cbn [and_then]. unfold items.
    rewrite (exec_loop_all_written orig revert _ _ _ _ Hall). reflexivity.
Qed.

Lemma logs_query_only_read name :
  logs h (fun l => is_set_call l = false) (sysctl_read name).
Proof.
  intros w o w' t H. apply sysctl_read_log in H. subst t.
  repeat constructor.
Qed.

(** The snapshot only queries. *)
Lemma logs_query_only_snapshot sysctl_dict :
  logs h (fun l => is_set_call l = false) (snapshot sysctl_dict).
Proof.
  unfold snapshot. apply logs_for_in. intros name acc _.
  apply logs_bind; [apply logs_query_only_read|].
  intros cur. apply logs_ret.
Qed.

(** X5: A batch can raise: when the executor raises while the snapshot is
    taken, the batch raises the same exception, whatever [revert] is, and
    no set-command has been sent. *)
Theorem sysctl_apply_snapshot_raises sysctl_dict revert w e w1 t1 :
  exec h (snapshot sysctl_dict) w = (Raised e, w1, t1) ->
  exec h (sysctl_apply sysctl_dict revert) w = (Raised e, w1, t1)
  /\ existsb is_set_call t1 = false.
Proof.
  intros Hsnap. split.
  - rewrite sysctl_apply_body, exec_bind, Hsnap. reflexivity.
  - apply logs_query_only_snapshot in Hsnap.
    induction Hsnap as [|l t Hl _ IH]; [reflexivity|].
    cbn [existsb]. rewrite Hl, IH. reflexivity.
Qed.
End BatchFacts.

Lemma sysctl_apply_true_iff_witness :
  exists w t,
    exec Stub.handler (sysctl_apply Scenario.one_key true) Scenario.A_is_0
    = (Returned true, w, t).
Proof.
  eexists _, _.
  apply (proj2 (sysctl_apply_true_iff Stub.kernel Stub.handler
                  Scenario.one_key true Scenario.A_is_0 _ _)).
  eexists _, _, _, _. split; [|split].
  - vm_compute. reflexivity.
  - vm_compute. reflexivity.
  - reflexivity.
Defined.

Lemma sysctl_apply_snapshot_raises_witness :
  exec Stub.no_binary (sysctl_apply Scenario.two_keys true) tt
  = (Raised FileNotFoundError, tt, [query_call Scenario.A]).
Proof.
  apply (sysctl_apply_snapshot_raises unit Stub.no_binary
           Scenario.two_keys true tt FileNotFoundError tt
           [query_call Scenario.A]).
  vm_compute. reflexivity.
Defined.

(** ** The batch on a table of tunables *)

Section TableFacts.
Variable World : Type.
Variable h : forall X, call X -> World -> outcome X * World.
Variable names : list str.
Variable val : World -> str -> str.
Variable accepts : str -> str -> bool.
Hypothesis table : table_like h names val accepts.

Lemma unchanged_refl w : unchanged val names w w.
Proof. intros k _. reflexivity. Qed.

Lemma unchanged_trans w1 w2 w3 :
  unchanged val names w1 w2 -> unchanged val names w2 w3 ->
  unchanged val names w1 w3.
Proof. intros H12 H23 k Hk. rewrite (H23 k Hk). apply H12. exact Hk. Qed.

(** One write on a table: either the key ends at the target (it was
    there already, or the table accepted it), or the write reports
    failure and the key keeps its value; no other key moves. *)
Lemma table_write k v w :
  In k names ->
  exists ok w' t,
    exec h (sysctl_write k v) w = (Returned ok, w', t)
    /\ (forall k', In k' names -> k' <> k -> val w' k' = val w k')
    /\ ((ok = true /\ val w' k = to_str v
         /\ (val w k = to_str v \/ accepts k (to_str v) = true))
        \/ (ok = false /\ val w' k = val w k
            /\ accepts k (to_str v) = false)).
Proof.
  intros Hin. rewrite exec_sysctl_write.
  destruct (query_answers table k w Hin) as (w1 & Hq & Hu1). rewrite Hq.
  destruct (str_eqb (val w k) (to_str v)) eqn:E.
  - apply str_eqb_eq in E. exists true, w1, [query_call k].
    split; [reflexivity|]. split.
    + intros k' Hk' _. apply Hu1. exact Hk'.
    + left. split; [reflexivity|]. split; [|left; exact E].
      rewrite (Hu1 k Hin). exact E.
  - destruct (accepts k (to_str v)) eqn:Ea.
    + destruct (set_accepted table k (to_str v) w1 Hin Ea)
        as (cp & w2 & Hs & Hrc & Hv & Ho).
      rewrite Hs, Hrc. cbn [Z.eqb negb].
      destruct (query_answers table k w2 Hin) as (w3 & Hq3 & Hu3).
      rewrite Hq3, Hv, str_eqb_refl.
      eexists true, w3, _. split; [reflexivity|]. split.
      * intros k' Hk' Hne. rewrite (Hu3 k' Hk'), (Ho k' Hk' Hne).
        apply Hu1. exact Hk'.
      * left. split; [reflexivity|]. split; [|right; reflexivity].
        rewrite (Hu3 k Hin). exact Hv.
    + destruct (set_refused table k (to_str v) w1 Hin Ea)
        as (cp & w2 & Hs & Hrc & Hu2).
      rewrite Hs. apply Z.eqb_neq in Hrc. rewrite Hrc. cbn [negb].
      eexists false, w2, _. split; [reflexivity|]. split.
      * intros k' Hk' _. rewrite (Hu2 k' Hk'). apply Hu1. exact Hk'.
      * right. split; [reflexivity|]. split; [|reflexivity].
        rewrite (Hu2 k Hin). apply Hu1. exact Hin.
Qed.

(** Reading keys of a table gives their values and moves nothing. *)
Lemma table_read_all ks w :
  incl ks names ->
  exists w' t,
    exec h (read_all ks) w = (Returned (List.map (val w) ks), w', t)
    /\ unchanged val names w w'.
Proof.
  revert w. induction ks as [|k ks IH]; intros w Hincl.
  - exists w, []. split; [reflexivity | apply unchanged_refl].
  - assert (Hk : In k names) by (apply Hincl; left; reflexivity).
    assert (Hks : incl ks names)
      by (intros x Hx; apply Hincl; right; exact Hx).
    destruct (query_answers table k w Hk) as (w1 & Hq & Hu1).
    destruct (IH w1 Hks) as (w2 & t2 & Hr & Hu2).
    cbn [read_all List.map]. rewrite exec_bind, Hq. cbn [and_then].
    rewrite exec_bind, Hr. cbn [and_then exec].
    eexists w2, _. split.
    + f_equal. f_equal. f_equal. f_equal.
      apply map_ext_in. intros x Hx. apply Hu1. apply Hks. exact Hx.
    + eapply unchanged_trans; eassumption.
Qed.

Section Rollback.
(** The world before the batch. *)
Variable w0 : World.

(** Writing the snapshot back, key by key. *)
Lemma table_write_back ks w :
  incl ks names -> NoDup ks -> restorable names val accepts w0 w ->
  exists w' t,
    exec h (write_all (combine ks (List.map VStr (List.map (val w0) ks)))) w
    = (Returned true, w', t)
    /\ (forall k, In k ks -> val w' k = val w0 k)
    /\ (forall k, In k names -> ~ In k ks -> val w' k = val w k).
Proof.
  revert w. induction ks as [|k ks IH]; intros w Hincl Hnd Hres.
  - exists w, []. split; [reflexivity|]. split; [intros k []|reflexivity].
  - assert (Hk : In k names) by (apply Hincl; left; reflexivity).
    assert (Hks : incl ks names)
      by (intros x Hx; apply Hincl; right; exact Hx).
    inversion Hnd as [|? ? Hnotin Hnd']; subst.
    destruct (table_write k (VStr (val w0 k)) w Hk)
      as (ok & w1 & t1 & Hw & Hothers & Hcase).
    cbn [to_str] in Hcase.
    assert (Hok : ok = true /\ val w1 k = val w0 k).
    { destruct Hcase as [(-> & Hv & _)|(-> & Hv & Hacc)];
        [split; [reflexivity | exact Hv]|].
      destruct (Hres k Hk) as [Heq|Ha]; [|congruence].
      exfalso.
      rewrite exec_sysctl_write in Hw.
      destruct (query_answers table k w Hk) as (wq & Hq & _).
      rewrite Hq in Hw. cbn [to_str] in Hw.
      rewrite Heq, str_eqb_refl in Hw. discriminate. }
    destruct Hok as [-> Hv1].
    assert (Hres1 : restorable names val accepts w0 w1).
    { intros x Hx. destruct (list_eq_dec N.eq_dec x k) as [->|Hne].
      - left. exact Hv1.
      - rewrite (Hothers x Hx Hne). apply Hres. exact Hx. }
    destruct (IH w1 Hks Hnd' Hres1) as (w2 & t2 & Hrest & Hin2 & Hout2).
    cbn [combine List.map write_all]. rewrite exec_bind, Hw.
    cbn [and_then]. rewrite Hrest.
    eexists w2, _. split; [reflexivity|]. split.
    + intros x [<-|Hx].
      * rewrite (Hout2 k Hk Hnotin). exact Hv1.
      * apply Hin2. exact Hx.
    + intros x Hx Hnot.
      assert (Hne : x <> k) by (intros ->; apply Hnot; left; reflexivity).
      rewrite (Hout2 x Hx), (Hothers x Hx Hne); [reflexivity|].
      intros Hin. apply Hnot. right. exact Hin.
Qed.

(** Whatever the table takes for a key, it takes the key's value before
    the batch. *)
Hypothesis takes_back :
  forall k v, In k names -> accepts k v = true -> accepts k (val w0 k) = true.
Hypothesis names_nodup : NoDup names.

Lemma restorable_unchanged w w' :
  restorable names val accepts w0 w -> unchanged val names w w' ->
  restorable names val accepts w0 w'.
Proof.
  intros Hres Hu k Hk. rewrite (Hu k Hk). apply Hres. exact Hk.
Qed.

(** The rollback on a table puts every key back. *)
Lemma table_rollback w :
  restorable names val accepts w0 w ->
  exists ok w' t,
    exec h (sysctl_apply
              (combine names (List.map VStr (List.map (val w0) names)))
              false) w
    = (Returned ok, w', t)
    /\ unchanged val names w0 w'.
Proof.
  intros Hres. rewrite exec_apply_norevert, exec_bind, exec_snapshot.
  rewrite keys_combine by (rewrite !length_map; reflexivity).
  destruct (table_read_all names w (incl_refl _)) as (w1 & t1 & Hr & Hu1).
  rewrite Hr. cbn [and_then].
  destruct (table_write_back names w1 (incl_refl _) names_nodup
              (restorable_unchanged _ _ Hres Hu1))
    as (w2 & t2 & Hw & Hin & _).
  rewrite Hw. eexists true, w2, _. split; [reflexivity|].
  intros k Hk. apply Hin. exact Hk.
Qed.

(** The second loop on a table, from any point of the batch. *)
Lemma table_loop its w :
  incl (keys its) names -> NoDup (keys its) ->
  restorable names val accepts w0 w ->
  exists ok w' t,
    exec h (for_in_return its
              (write_or_revert
                 (combine names (List.map VStr (List.map (val w0) names)))
                 true)
              (Ret true)) w
    = (Returned ok, w', t)
    /\ (ok = false -> unchanged val names w0 w')
    /\ (ok = true ->
        (forall k v, In (k, v) its -> val w' k = to_str v)
        /\ (forall k, In k names -> ~ In k (keys its) -> val w' k = val w k)).
Proof.
  revert w. induction its as [|[k v] its IH]; intros w Hincl Hnd Hres.
  - exists true, w, []. split; [reflexivity|]. split; [discriminate|].
    intros _. split; [intros k v [] | reflexivity].
  - assert (Hk : In k names) by (apply Hincl; left; reflexivity).
    assert (Hits : incl (keys its) names)
      by (intros x Hx; apply Hincl; right; exact Hx).
    cbn [keys List.map fst] in Hnd.
    inversion Hnd as [|? ? Hnotin Hnd']; subst.
    destruct (table_write k v w Hk) as (ok & w1 & t1 & Hw & Hothers & Hcase).
    cbn [for_in_return]. rewrite exec_bind. unfold write_or_revert at 1.
    rewrite exec_bind, Hw. cbn [and_then].
    destruct Hcase as [(-> & Hv & Hwhy)|(-> & Hv & _)]; cbn [negb].
    + assert (Hres1 : restorable names val accepts w0 w1).
      { intros x Hx. destruct (list_eq_dec N.eq_dec x k) as [->|Hne].
        - destruct (Hres k Hk) as [Heq|Ha]; [|right; exact Ha].
          destruct Hwhy as [Hsame|Hacc].
          + left. congruence.
          + right. eapply takes_back; eassumption.
        - rewrite (Hothers x Hx Hne). apply Hres. exact Hx. }
      destruct (IH w1 Hits Hnd' Hres1)
        as (ok & w2 & t2 & Hloop & Hfalse & Htrue).
      cbn [exec and_then]. rewrite Hloop.
      eexists ok, w2, _. split; [reflexivity|]. split; [exact Hfalse|].
      intros Hok. destruct (Htrue Hok) as [Hin Hout]. split.
      * intros x y [Hxy|Hxy].
        -- inversion Hxy; subst. rewrite (Hout x Hk Hnotin). exact Hv.
        -- apply Hin. exact Hxy.
      * intros x Hx Hnot.
        assert (Hne : x <> k)
          by (intros ->; apply Hnot; left; reflexivity).
        rewrite (Hout x Hx), (Hothers x Hx Hne); [reflexivity|].
        intros Hin'. apply Hnot. right. exact Hin'.
    + assert (Hu1 : unchanged val names w w1).
      { intros x Hx. destruct (list_eq_dec N.eq_dec x k) as [->|Hne];
          [exact Hv | apply Hothers; assumption]. }
      destruct (table_rollback w1 (restorable_unchanged _ _ Hres Hu1))
        as (okr & w2 & t2 & Hroll & Hback).
      rewrite !exec_bind, Hroll. cbn [and_then exec].
      eexists false, w2, _. split; [reflexivity|].
      split; [intros _; exact Hback | discriminate].
Qed.
End Rollback.
End TableFacts.

(** X6: On an executor that behaves like a table of tunables, a batch with
    [revert=True] is all or nothing: it returns, and when it returns
    false every key of the set reads as before the batch, when it returns
    true every key reads as its target.  The table has to take a key's
    old value back if it takes any value for it. *)
Theorem sysctl_apply_all_or_nothing World
    (h : forall X, call X -> World -> outcome X * World)
    (val : World -> str -> str) (accepts : str -> str -> bool)
    (sysctl_dict : dict str value) (w : World) :
  table_like h (keys sysctl_dict) val accepts ->
  NoDup (keys sysctl_dict) ->
  (forall k v, In k (keys sysctl_dict) -> accepts k v = true ->
               accepts k (val w k) = true) ->
  exists ok w' t,
    exec h (sysctl_apply sysctl_dict true) w = (Returned ok, w', t)
    /\ (ok = false -> unchanged val (keys sysctl_dict) w w')
    /\ (ok = true ->
        forall k v, In (k, v) sysctl_dict -> val w' k = to_str v).
Proof.
  intros Htable Hnd Hback.
  destruct (table_read_all World h _ val accepts Htable
              (keys sysctl_dict) w (incl_refl _))
    as (w1 & t1 & Hread & Hu1).
  pose proof (exec_snapshot_nodup World h sysctl_dict w _ w1 t1 Hnd Hread)
    as Hsnap.
  destruct (table_loop World h _ val accepts Htable w Hback Hnd
              sysctl_dict w1 (incl_refl _) Hnd)
    as (ok & w2 & t2 & Hloop & Hfalse & Htrue).
  { intros k Hk. left. apply Hu1. exact Hk. }
  rewrite sysctl_apply_body, exec_bind, Hsnap. cbn [and_then].
  unfold items. rewrite Hloop.
  eexists ok, w2, _. split; [reflexivity|]. split; [exact Hfalse|].
  intros Hok. apply (Htrue Hok).
Qed.

Lemma switch_is_a_table :
  table_like Switch.handler [Scenario.A; Scenario.B] Switch.val Switch.accepts.
Proof.
  constructor.
  - intros k w [<-|[<-|[]]]; exists w; (split; [|intros x _; reflexivity]);
      destruct w; vm_compute; reflexivity.
  - intros k v w [<-|[<-|[]]] Hacc; [|discriminate Hacc].
    unfold Switch.accepts in Hacc. cbn [andb] in Hacc.
    change (str_eqb Scenario.A Scenario.A) with true in Hacc.
    cbn [andb] in Hacc. apply orb_true_iff in Hacc.
    destruct Hacc as [Hv|Hv]; apply str_eqb_eq in Hv; subst v.
    + exists (mkCompleted 0 None), false.
      repeat split; try reflexivity.
      intros k' [<-|[<-|[]]] Hne; [congruence | reflexivity].
    + exists (mkCompleted 0 None), true.
      repeat split; try reflexivity.
      intros k' [<-|[<-|[]]] Hne; [congruence | reflexivity].
  - intros k v w [<-|[<-|[]]] Hacc.
    + unfold Switch.accepts in Hacc.
      change (str_eqb Scenario.A Scenario.A) with true in Hacc.
      cbn [andb] in Hacc. apply orb_false_iff in Hacc.
      destruct Hacc as [H0 H1].
      exists (mkCompleted 1 None), w.
      split; [|split; [discriminate | intros x _; reflexivity]].
      cbn [Switch.handler]. unfold set_args, Switch.sysctl.
      change (str_eqb (u "-wq") (u "-nb")) with false. cbv iota.
      change (str_eqb (Scenario.A ++ u "=" ++ v) (u "A=0"))
        with (str_eqb v (u "0")).
      change (str_eqb (Scenario.A ++ u "=" ++ v) (u "A=1"))
        with (str_eqb v (u "1")).
      rewrite H0, H1. reflexivity.
    + exists (mkCompleted 1 None), w.
      split; [|split; [discriminate | intros x _; reflexivity]].
      reflexivity.
Qed.

Lemma sysctl_apply_all_or_nothing_witness :
  exists w' t,
    exec Switch.handler (sysctl_apply Scenario.two_keys true) false
    = (Returned false, w', t)
    /\ unchanged Switch.val (keys Scenario.two_keys) false w'.
Proof.
  destruct (sysctl_apply_all_or_nothing bool Switch.handler
              Switch.val Switch.accepts Scenario.two_keys false
              switch_is_a_table)
    as (ok & w' & t & Hexec & Hfalse & _).
  - vm_compute. repeat constructor; cbn [In]; intuition discriminate.
  - intros k v [<-|[<-|[]]] Hacc; [reflexivity | discriminate Hacc].
  - assert (Hok : ok = false).
    { destruct ok; [|reflexivity]. vm_compute in Hexec. discriminate. }
    subst ok. exists w', t. split; [exact Hexec | apply Hfalse; reflexivity].
Defined.

(** ** Uptime *)

(** A parsed field is never negative: its sign bit is clear. *)
Lemma of_ratio_sign (p q : positive) :
  match Float.of_ratio p q with
  | S754_zero s | S754_infinity s | S754_finite s _ _ => s = false
  | S754_nan => True
  end.
Proof.
  unfold Float.of_ratio.
  destruct (SFdiv_core_binary Float.prec Float.emax (Z.pos p) 0 (Z.pos q) 0)
    as [[mz ez] lz].
  unfold binary_round_aux.
  destruct (shr_fexp Float.prec Float.emax mz ez lz) as [mrs' e'].
  destruct (shr_fexp Float.prec Float.emax _ e' loc_Exact) as [mrs'' e''].
  destruct (shr_m mrs''); [reflexivity| |exact I].
  destruct (Z.leb e'' (Float.emax - Float.prec)); reflexivity.
Qed.

Lemma of_str_sign (s : str) (x : Float.float) :
  Float.of_str s = Some x ->
  match x with
  | S754_zero sg | S754_infinity sg | S754_finite sg _ _ => sg = false
  | S754_nan => True
  end.
Proof.
  unfold Float.of_str.
  destruct (Float.scan s false 0 0 0) as [[[mant frac] digits]|];
    [|discriminate].
  destruct (digits =? 0)%N; [discriminate|].
  destruct mant as [|p]; intros H; inversion H; subst.
  - reflexivity.
  - apply of_ratio_sign.
Qed.

Lemma search_by_here here s g :
  here s = Some g -> search_by here s = Some g.
Proof. intros H. destruct s; cbn [search_by]; rewrite H; reflexivity. Qed.

(** At a field followed by white space the pattern captures the
    field. *)
Lemma uptime_pattern_field (field : str) (c : N) (rest : str) :
  is_field field = true -> Re.is_space c = true ->
  uptime_pattern_here (field ++ c :: rest) = Some [("1"%string, field)].
Proof.
  intros Hf Hc. destruct (is_field_inv _ Hf) as [Hne Hall].
  unfold uptime_pattern_here. apply match_group_plus.
  - exact Hne.
  - exact Hall.
  - cbn [stops]. rewrite (space_not_digit_or_dot _ Hc). reflexivity.
  - cbn [re_one app]. rewrite Hc. reflexivity.
Qed.

(** No white space, no match: the pattern ends with [\s]. *)
Lemma star_then_space_fails set (s : str) k (G : str -> Re.groups) :
  forallb (fun c => negb (Re.is_space c)) s = true ->
  Re.star set s (fun s' => re_one Re.is_space k s' (G s')) = None.
Proof.
  induction s as [|c s IH]; intros Hs; cbn [Re.star re_one];
    [reflexivity|].
  cbn [forallb] in Hs. apply andb_true_iff in Hs. destruct Hs as [Hc Hs].
  apply negb_true_iff in Hc. rewrite (IH Hs), Hc.
  destruct (set c); reflexivity.
Qed.

Lemma uptime_pattern_here_no_space (s : str) :
  forallb (fun c => negb (Re.is_space c)) s = true ->
  uptime_pattern_here s = None.
Proof.
  intros Hs. unfold uptime_pattern_here. cbn [Re.match_here].
  destruct s as [|c s]; [reflexivity|].
  destruct (Re.is_digit_or_dot c); [|reflexivity].
  cbn [forallb] in Hs. apply andb_true_iff in Hs. destruct Hs as [_ Hs].
  apply (star_then_space_fails Re.is_digit_or_dot s (fun _ g => Some g)
           (fun s' => [] ++ [("1"%string, Re.consumed (c :: s) s')])).
  exact Hs.
Qed.

Lemma uptime_pattern_no_space (s : str) :
  forallb (fun c => negb (Re.is_space c)) s = true ->
  search_by uptime_pattern_here s = None.
Proof.
  induction s as [|c s IH]; intros Hs.
  - reflexivity.
  - cbn [search_by]. rewrite (uptime_pattern_here_no_space _ Hs).
    apply IH. cbn [forallb] in Hs. apply andb_true_iff in Hs. apply Hs.
Qed.

Section UptimeFacts.
Variable World : Type.
Variable h : forall X, call X -> World -> outcome X * World.

(** X9: When the file starts with a field followed by white space,
    [get_uptime_seconds] returns the integer part of the field read as a
    float. *)
Theorem get_uptime_seconds_field w data w1 field c rest x seconds :
  h _ (read_file (u "/proc/uptime")) w = (Returned data, w1) ->
  data = field ++ c :: rest ->
  is_field field = true -> Re.is_space c = true ->
  Float.of_str field = Some x ->
  int_of_float x = Ret seconds ->
  exec h get_uptime_seconds w
  = (Returned seconds, w1, [Called (read_file (u "/proc/uptime"))]).
Proof.
  intros Hread -> Hf Hc Hx Hint.
  unfold get_uptime_seconds, trigger. cbn [bind exec]. rewrite Hread.
  rewrite (search_by_here _ _ _ (uptime_pattern_field _ _ rest Hf Hc)).
  unfold group_1, float_of. cbn [Re.group String.eqb Ascii.eqb Bool.eqb bind].
  rewrite Hx. cbn [bind]. rewrite Hint. reflexivity.
Qed.

(** X10: [get_uptime_seconds] never returns a negative number. *)
Theorem get_uptime_seconds_nonneg w seconds w' t :
  exec h get_uptime_seconds w = (Returned seconds, w', t) ->
  0 <= seconds.
Proof.
  unfold get_uptime_seconds. intros H.
  apply exec_bind_inv in H. destruct H as (data & w1 & t1 & t2 & _ & H & _).
  apply exec_bind_inv in H. destruct H as (sec & w2 & t3 & t4 & _ & H & _).
  apply exec_bind_inv in H. destruct H as (x & w3 & t5 & t6 & Hx & H & _).
  apply exec_bind_inv in H. destruct H as (res & w4 & t7 & t8 & Hr & H & _).
  inversion H; subst. clear H.
  unfold float_of in Hx. destruct (Float.of_str sec) as [y|] eqn:E;
    [|discriminate]. inversion Hx; subst. apply of_str_sign in E.
  destruct x as [s|s| |s m e]; try discriminate; cbn [int_of_float] in Hr.
  - inversion Hr. lia.
  - subst s. inversion Hr. apply Z.shiftl_nonneg. lia.
Qed.

(** X11: A file without white space has no match, and [get_uptime_seconds]
    raises [AttributeError]. *)
Theorem get_uptime_seconds_no_match w data w1 :
  h _ (read_file (u "/proc/uptime")) w = (Returned data, w1) ->
  forallb (fun c => negb (Re.is_space c)) data = true ->
  exec h get_uptime_seconds w
  = (Raised AttributeError, w1, [Called (read_file (u "/proc/uptime"))]).
Proof.
  intros Hread Hs.
  unfold get_uptime_seconds, trigger. cbn [bind exec]. rewrite Hread.
  rewrite (uptime_pattern_no_space _ Hs). reflexivity.
Qed.
End UptimeFacts.

Lemma get_uptime_seconds_field_witness :
  exec Proc.handler get_uptime_seconds Proc.idle
  = (Returned 350735, Proc.idle, [Called (read_file (u "/proc/uptime"))]).
Proof.
  eapply (get_uptime_seconds_field Proc.files Proc.handler Proc.idle
            (u "350735.47 234388.90") Proc.idle
            (u "350735.47") 32%N (u "234388.90"));
    vm_compute; reflexivity.
Defined.

Lemma get_uptime_seconds_nonneg_witness : 0 <= 350735.
Proof.
  apply (get_uptime_seconds_nonneg Proc.files Proc.handler Proc.idle
           350735 Proc.idle [Called (read_file (u "/proc/uptime"))]).
  vm_compute. reflexivity.
Defined.

Lemma get_uptime_seconds_no_match_witness :
  exec Proc.handler get_uptime_seconds Proc.blank
  = (Raised AttributeError, Proc.blank,
     [Called (read_file (u "/proc/uptime"))]).
Proof.
  apply (get_uptime_seconds_no_match Proc.files Proc.handler Proc.blank
           [] Proc.blank); reflexivity.
Defined.

(** ** Load averages that cannot be computed *)

Lemma star_fails {R} set (s : str) (k : str -> option R) :
  (forall s', forallb (fun c => negb (Re.is_space c)) s' = true ->
              k s' = None) ->
  forallb (fun c => negb (Re.is_space c)) s = true ->
  Re.star set s k = None.
Proof.
  intros Hk. induction s as [|c s IH]; intros Hs; cbn [Re.star].
  - apply Hk. reflexivity.
  - rewrite (Hk _ Hs).
    cbn [forallb] in Hs. apply andb_true_iff in Hs. destruct Hs as [_ Hs].
    rewrite (IH Hs). destruct (set c); reflexivity.
Qed.

Lemma plus_space_fails (s : str) g k :
  forallb (fun c => negb (Re.is_space c)) s = true ->
  Re.match_here (Re.Plus Re.is_space) s g k = None.
Proof.
  intros Hs. cbn [Re.match_here]. destruct s as [|c s]; [reflexivity|].
  cbn [forallb] in Hs. apply andb_true_iff in Hs. destruct Hs as [Hc _].
  apply negb_true_iff in Hc. rewrite Hc. reflexivity.
Qed.

(** The load-average pattern needs white space between the fields. *)
Lemma search_loadavg_no_space (s : str) :
  forallb (fun c => negb (Re.is_space c)) s = true ->
  Re.search loadavg_pattern s = None.
Proof.
  assert (Hhere : forall s',
             forallb (fun c => negb (Re.is_space c)) s' = true ->
             Re.match_here loadavg_pattern s' [] (fun _ g => Some g) = None).
  { intros s' Hs'. unfold loadavg_pattern. rewrite match_seq.
    cbn [Re.match_here]. apply star_fails; [|exact Hs'].
    clear s' Hs'. intros s' Hs'.
    destruct s' as [|c s']; [reflexivity|].
    destruct (Re.is_digit_or_dot c); [|reflexivity].
    cbn [forallb] in Hs'. apply andb_true_iff in Hs'.
    destruct Hs' as [_ Hs'].
    apply star_fails; [|exact Hs'].
    intros s'' Hs''. destruct s'' as [|c' s'']; [reflexivity|].
    cbn [forallb] in Hs''. apply andb_true_iff in Hs''.
    destruct Hs'' as [Hc' _]. apply negb_true_iff in Hc'.
    rewrite Hc'. reflexivity. }
  induction s as [|c s IH]; intros Hs; cbn [Re.search];
    rewrite (Hhere _ Hs); [reflexivity|].
  apply IH. cbn [forallb] in Hs. apply andb_true_iff in Hs. apply Hs.
Qed.

(** A second dot makes [float] reject a field. *)
Lemma scan_second_dot (s : str) mant frac digits :
  In 46%N s -> Float.scan s true mant frac digits = None.
Proof.
  revert mant frac digits. induction s as [|c s IH];
    intros mant frac digits Hin; [destruct Hin|].
  cbn [Float.scan].
  destruct ((48 <=? c)%N && (c <=? 57)%N) eqn:Ed.
  - apply IH. destruct Hin as [->|Hin]; [discriminate | exact Hin].
  - destruct (c =? 46)%N; reflexivity.
Qed.

Lemma of_str_two_dots (a rest : str) :
  In 46%N rest -> Float.of_str (a ++ 46%N :: rest) = None.
Proof.
  intros Hin. unfold Float.of_str.
  assert (H : forall mant frac digits dot,
             Float.scan (a ++ 46%N :: rest) dot mant frac digits = None).
  { induction a as [|c a IH]; intros mant frac digits dot; cbn [app Float.scan].
    - cbn. destruct dot; [reflexivity|]. apply scan_second_dot. exact Hin.
    - destruct ((48 <=? c)%N && (c <=? 57)%N); [apply IH|].
      destruct (c =? 46)%N; [|reflexivity].
      destruct dot; [reflexivity | apply IH]. }
  rewrite H. reflexivity.
Qed.

Section LoadFacts.
Variable World : Type.
Variable h : forall X, call X -> World -> outcome X * World.

(** X12: A file without white space has no match: [get_load_averages] still
    asks for the core count, then raises [TypeError]. *)
Theorem get_load_averages_no_match w data w1 core_count w2 :
  h _ (read_file (u "/proc/loadavg")) w = (Returned data, w1) ->
  h _ get_core_count w1 = (Returned core_count, w2) ->
  forallb (fun c => negb (Re.is_space c)) data = true ->
  exec h get_load_averages w
  = (Raised TypeError, w2,
     [Called (read_file (u "/proc/loadavg")); Called get_core_count]).
Proof.
  intros Hread Hcores Hs.
  unfold get_load_averages, trigger. cbn [bind exec]. rewrite Hread.
  cbv zeta. rewrite (search_loadavg_no_space _ Hs).
  cbn [bind exec]. rewrite Hcores. reflexivity.
Qed.

(** X13: A first field with two dots passes the pattern and is rejected by
    [float]: [get_load_averages] raises [ValueError]. *)
Theorem get_load_averages_two_dots w data w1 core_count w2
    ws0 a rest1 ws1 five ws2 fifteen rest :
  h _ (read_file (u "/proc/loadavg")) w = (Returned data, w1) ->
  h _ get_core_count w1 = (Returned core_count, w2) ->
  data = ws0 ++ (a ++ 46%N :: rest1) ++ ws1 ++ five ++ ws2 ++ fifteen ++ rest ->
  In 46%N rest1 ->
  forallb Re.is_space ws0 = true ->
  is_field (a ++ 46%N :: rest1) = true -> is_separator ws1 = true ->
  is_field five = true -> is_separator ws2 = true ->
  is_field fifteen = true -> ends_field rest = true ->
  exec h get_load_averages w
  = (Raised ValueError, w2,
     [Called (read_file (u "/proc/loadavg")); Called get_core_count]).
Proof.
  intros Hread Hcores -> Hdot Hws0 H1 Hs1 H5 Hs2 H15 Hrest.
  unfold get_load_averages, trigger. cbn [bind exec]. rewrite Hread.
  cbv zeta.
  rewrite (search_loadavg _ _ _ _ _ _ _ Hws0 H1 Hs1 H5 Hs2 H15 Hrest).
  cbn [bind exec]. rewrite Hcores.
  unfold subscript, float_of.
  cbn [Re.group String.eqb Ascii.eqb Bool.eqb bind].
  rewrite (of_str_two_dots _ _ Hdot). reflexivity.
Qed.

(** X14: With a core count of zero the first division raises
    [ZeroDivisionError]. *)
Theorem get_load_averages_zero_cores w data w1 w2
    ws0 one ws1 five ws2 fifteen rest x1 :
  h _ (read_file (u "/proc/loadavg")) w = (Returned data, w1) ->
  h _ get_core_count w1 = (Returned 0, w2) ->
  data = ws0 ++ one ++ ws1 ++ five ++ ws2 ++ fifteen ++ rest ->
  forallb Re.is_space ws0 = true ->
  is_field one = true -> is_separator ws1 = true ->
  is_field five = true -> is_separator ws2 = true ->
  is_field fifteen = true -> ends_field rest = true ->
  Float.of_str one = Some x1 ->
  exec h get_load_averages w
  = (Raised ZeroDivisionError, w2,
     [Called (read_file (u "/proc/loadavg")); Called get_core_count]).
Proof.
  intros Hread Hcores -> Hws0 H1 Hs1 H5 Hs2 H15 Hrest Hx1.
  unfold get_load_averages, trigger. cbn [bind exec]. rewrite Hread.
  cbv zeta.
  rewrite (search_loadavg _ _ _ _ _ _ _ Hws0 H1 Hs1 H5 Hs2 H15 Hrest).
  cbn [bind exec]. rewrite Hcores.
  unfold subscript, float_of.
  cbn [Re.group String.eqb Ascii.eqb Bool.eqb bind].
  rewrite Hx1. reflexivity.
Qed.
End LoadFacts.

Lemma get_load_averages_no_match_witness :
  exec Proc.handler get_load_averages Proc.blank
  = (Raised TypeError, Proc.blank,
     [Called (read_file (u "/proc/loadavg")); Called get_core_count]).
Proof.
  apply (get_load_averages_no_match Proc.files Proc.handler Proc.blank
           [] Proc.blank 2 Proc.blank); reflexivity.
Defined.

Lemma get_load_averages_two_dots_witness :
  exec Proc.handler get_load_averages Proc.garbled
  = (Raised ValueError, Proc.garbled,
     [Called (read_file (u "/proc/loadavg")); Called get_core_count]).
Proof.
  apply (get_load_averages_two_dots Proc.files Proc.handler Proc.garbled
           (u "1.2.3 0.58 0.59 1/257 11757") Proc.garbled 2 Proc.garbled
           [] (u "1") (u "2.3") (u " ") (u "0.58") (u " ") (u "0.59")
           (u " 1/257 11757"));
    try (vm_compute; reflexivity).
  vm_compute. right. left. reflexivity.
Defined.

Lemma get_load_averages_zero_cores_witness :
  exec Proc.handler get_load_averages Proc.coreless
  = (Raised ZeroDivisionError, Proc.coreless,
     [Called (read_file (u "/proc/loadavg")); Called get_core_count]).
Proof.
  eapply (get_load_averages_zero_cores Proc.files Proc.handler Proc.coreless
            (u "0.52 0.58 0.59 1/257 11757") Proc.coreless Proc.coreless
            [] (u "0.52") (u " ") (u "0.58") (u " ") (u "0.59")
            (u " 1/257 11757"));
    vm_compute; reflexivity.
Defined.

(** ** Device files *)

Lemma first_return_none {X R} (xs : list X) (body : X -> option R) :
  first_return xs body = None <-> forall x, In x xs -> body x = None.
Proof.
  induction xs as [|x xs IH]; cbn [first_return].
  - split; [intros _ x [] | reflexivity].
  - destruct (body x) as [r|] eqn:E.
    + split; [discriminate|]. intros H.
      specialize (H x (or_introl eq_refl)). congruence.
    + rewrite IH. split.
      * intros H y [<-|Hy]; [exact E | apply H; exact Hy].
      * intros H y Hy. apply H. right. exact Hy.
Qed.

Lemma first_return_some {X R} (xs : list X) (body : X -> option R) r :
  first_return xs body = Some r
  <-> exists before x after,
        xs = before ++ x :: after
        /\ (forall y, In y before -> body y = None)
        /\ body x = Some r.
Proof.
  induction xs as [|x xs IH]; cbn [first_return].
  - split; [discriminate|].
    intros (before & y & after & H & _). destruct before; discriminate.
  - destruct (body x) as [r'|] eqn:E.
    + split.
      * intros H. inversion H; subst.
        exists [], x, xs. split; [reflexivity|].
        split; [intros y [] | exact E].
      * intros (before & y & after & Hxs & Hnone & Hy).
        destruct before as [|z before]; cbn in Hxs; inversion Hxs; subst.
        -- congruence.
        -- specialize (Hnone z (or_introl eq_refl)). congruence.
    + rewrite IH. split.
      * intros (before & y & after & -> & Hnone & Hy).
        exists (x :: before), y, after. split; [reflexivity|].
        split; [|exact Hy].
        intros z [<-|Hz]; [exact E | apply Hnone; exact Hz].
      * intros (before & y & after & Hxs & Hnone & Hy).
        destruct before as [|z before]; cbn in Hxs; inversion Hxs; subst.
        -- congruence.
        -- exists before, y, after. split; [reflexivity|].
           split; [|exact Hy].
           intros z' Hz'. apply Hnone. right. exact Hz'.
Qed.

(** Under a root that is not empty and does not end with a slash, a
    name that does not start with one is joined with a slash. *)
Lemma path_join_plain (root : str) (c : N) (basename : str) (d : N) rest :
  root = rest ++ [d] -> d <> 47%N -> c <> 47%N ->
  path_join root (c :: basename) = root ++ u "/" ++ c :: basename.
Proof.
  intros -> Hd Hc. unfold path_join.
  rewrite rev_app_distr, length_app. cbn [rev app List.length startswith u
    list_ascii_of_string List.map].
  change (N_of_ascii "/") with 47%N.
  apply N.eqb_neq in Hd, Hc.
  rewrite (N.eqb_sym 47 c), (N.eqb_sym 47 d), Hc, Hd.
  replace (List.length rest + 1)%nat with (S (List.length rest)) by lia.
  reflexivity.
Qed.

Section DeviceFacts.
Variable fnmatch : str -> str -> bool.
Variable os_walk : str -> list (str * list str * list str).

(** X15: [find_device_file] returns [None] exactly when no file name that the
    walk of [/dev] yields matches the pattern. *)
Theorem find_device_file_none device :
  find_device_file fnmatch os_walk device = None
  <-> forall root dirs files basename,
        In (root, dirs, files) (os_walk (u "/dev")) ->
        In basename files -> fnmatch basename device = false.
Proof.
  unfold find_device_file.
  destruct (first_return (os_walk (u "/dev")) _) as [path|] eqn:E.
  - split; [discriminate|]. intros H. exfalso.
    apply first_return_some in E.
    destruct E as (before & [[root dirs] files] & after & Hw & _ & Hin).
    apply first_return_some in Hin.
    destruct Hin as (earlier & basename & later & -> & _ & Hm).
    rewrite (H root dirs (earlier ++ basename :: later) basename) in Hm.
    + discriminate.
    + rewrite Hw. apply in_elt.
    + apply in_elt.
  - split; [|reflexivity]. intros _ root dirs files basename Hw Hb.
    rewrite first_return_none in E. specialize (E _ Hw). cbn in E.
    rewrite first_return_none in E. specialize (E _ Hb).
    destruct (fnmatch basename device); [discriminate | reflexivity].
Qed.

(** X16: [find_device_file] returns the first match in walk order: the path
    of a file name that matches, in a directory that the walk yields,
    when no file of an earlier directory and no earlier file of the same
    directory matches.  Directory names are never looked at. *)
Theorem find_device_file_first device path :
  find_device_file fnmatch os_walk device = Some path
  <-> exists before root dirs files after earlier basename later,
        os_walk (u "/dev") = before ++ (root, dirs, files) :: after
        /\ files = earlier ++ basename :: later
        /\ fnmatch basename device = true
        /\ path = path_join root basename
        /\ (forall r d f name, In (r, d, f) before -> In name f ->
                               fnmatch name device = false)
        /\ (forall name, In name earlier -> fnmatch name device = false).
Proof.
  unfold find_device_file.
  assert (Hinner : forall root files p,
             first_return files
               (fun basename =>
                  if fnmatch basename device
                  then Some (path_join root basename) else None) = Some p
             <-> exists earlier basename later,
                   files = earlier ++ basename :: later
                   /\ fnmatch basename device = true
                   /\ p = path_join root basename
                   /\ (forall name, In name earlier ->
                                    fnmatch name device = false)).
  { intros root files p. rewrite first_return_some. split.
    - intros (earlier & basename & later & -> & Hnone & Hm).
      exists earlier, basename, later.
      destruct (fnmatch basename device) eqn:E; [|discriminate].
      inversion Hm; subst. repeat split.
      intros name Hname. specialize (Hnone _ Hname). cbn in Hnone.
      destruct (fnmatch name device); [discriminate | reflexivity].
    - intros (earlier & basename & later & -> & Hm & -> & Hnone).
      exists earlier, basename, later. split; [reflexivity|]. split.
      + intros name Hname. rewrite (Hnone _ Hname). reflexivity.
      + rewrite Hm. reflexivity. }
  destruct (first_return (os_walk (u "/dev")) _) as [p|] eqn:E.
  - apply first_return_some in E.
    destruct E as (before & [[root dirs] files] & after & Hw & Hnone & Hin).
    apply Hinner in Hin.
    destruct Hin as (earlier & basename & later & -> & Hm & -> & Hearlier).
    assert (Hbefore : forall r d f name, In (r, d, f) before -> In name f ->
                                         fnmatch name device = false).
    { intros r d f name Hr Hname. specialize (Hnone _ Hr). cbn in Hnone.
      rewrite first_return_none in Hnone. specialize (Hnone _ Hname).
      destruct (fnmatch name device); [discriminate | reflexivity]. }
    split.
    + intros H. inversion H; subst.
      exists before, root, dirs, (earlier ++ basename :: later), after,
             earlier, basename, later.
      repeat split; assumption.
    + intros (before' & root' & dirs' & files' & after' & earlier'
              & basename' & later' & Hw' & -> & Hm' & -> & Hb' & He').
      f_equal.
      assert (E' : first_return (os_walk (u "/dev"))
                     (fun '(root, _, files) =>
                        first_return files
                          (fun basename =>
                             if fnmatch basename device
                             then Some (path_join root basename) else None))
                   = Some (path_join root' basename')).
      { apply first_return_some.
        exists before', (root', dirs', earlier' ++ basename' :: later'),
               after'.
        split; [exact Hw'|]. split.
        - intros [[r d] f] Hr. apply first_return_none.
          intros name Hname. rewrite (Hb' r d f name Hr Hname). reflexivity.
        - apply Hinner. exists earlier', basename', later'.
          repeat split; assumption. }
      assert (E0 : first_return (os_walk (u "/dev"))
                     (fun '(root, _, files) =>
                        first_return files
                          (fun basename =>
                             if fnmatch basename device
                             then Some (path_join root basename) else None))
                   = Some (path_join root basename)).
      { apply first_return_some.
        exists before, (root, dirs, earlier ++ basename :: later), after.
        split; [exact Hw|]. split.
        - intros [[r d] f] Hr. apply first_return_none.
          intros name Hname. rewrite (Hbefore r d f name Hr Hname).
          reflexivity.
        - apply Hinner. exists earlier, basename, later.
          repeat split; assumption. }
      congruence.
  - split; [discriminate|].
    intros (before' & root' & dirs' & files' & after' & earlier'
            & basename' & later' & Hw' & -> & Hm' & -> & Hb' & He').
    exfalso. rewrite first_return_none in E.
    assert (Hin : In (root', dirs', earlier' ++ basename' :: later')
                     (os_walk (u "/dev")))
      by (rewrite Hw'; apply in_elt).
    specialize (E _ Hin). cbv beta iota in E.
    rewrite first_return_none in E.
    specialize (E basename' (in_elt _ _ _)). rewrite Hm' in E.
    discriminate.
Qed.
End DeviceFacts.

Lemma find_device_file_none_witness :
  find_device_file Dev.glob Dev.tree (u "nvme*") = None.
Proof.
  apply (proj2 (find_device_file_none Dev.glob Dev.tree (u "nvme*"))).
  intros root dirs files basename Hw Hb.
  cbn in Hw. destruct Hw as [Hw|[Hw|[]]]; inversion Hw; subst;
    cbn in Hb; intuition (subst; reflexivity).
Defined.

Lemma find_device_file_first_witness :
  find_device_file Dev.glob Dev.tree (u "ttyS*") = Some (u "/dev/ttyS0").
Proof.
  apply (proj2 (find_device_file_first Dev.glob Dev.tree (u "ttyS*")
                  (u "/dev/ttyS0"))).
  exists [], (u "/dev"), [u "pts"; u "ttyS9"],
         [u "null"; u "ttyS0"; u "ttyS1"], [(u "/dev/pts", [], [u "0"; u "ptmx"])],
         [u "null"], (u "ttyS0"), [u "ttyS1"].
  repeat split.
  - intros r d f name [].
  - intros name [<-|[]]. reflexivity.
Defined.

Section DevicePaths.
Variable fnmatch : str -> str -> bool.
Variable os_walk : str -> list (str * list str * list str).

(** X17: When the walk yields roots that do not end with a slash and file
    names that do not start with one, as [os.walk('/dev')] does, the path
    returned is a yielded root, a slash, and a matching file name of that
    root. *)
Theorem find_device_file_path device path :
  (forall root dirs files,
      In (root, dirs, files) (os_walk (u "/dev")) ->
      (exists rest d, root = rest ++ [d] /\ d <> 47%N)
      /\ (forall name, In name files ->
                       exists c tail, name = c :: tail /\ c <> 47%N)) ->
  find_device_file fnmatch os_walk device = Some path ->
  exists root dirs files basename,
    In (root, dirs, files) (os_walk (u "/dev"))
    /\ In basename files
    /\ fnmatch basename device = true
    /\ path = root ++ u "/" ++ basename.
Proof.
  intros Hshape. unfold find_device_file.
  destruct (first_return (os_walk (u "/dev")) _) as [p|] eqn:E;
    [|discriminate].
  intros H. inversion H; subst. clear H.
  apply first_return_some in E.
  destruct E as (before & [[root dirs] files] & after & Hw & _ & Hin).
  apply first_return_some in Hin.
  destruct Hin as (earlier & basename & later & -> & _ & Hm).
  destruct (fnmatch basename device) eqn:Em; [|discriminate].
  inversion Hm; subst. clear Hm.
  assert (Hr : In (root, dirs, earlier ++ basename :: later)
                  (os_walk (u "/dev")))
    by (rewrite Hw; apply in_elt).
  exists root, dirs, (earlier ++ basename :: later), basename.
  split; [exact Hr|]. split; [apply in_elt|]. split; [exact Em|].
  destruct (Hshape _ _ _ Hr) as [(rest & d & Hroot & Hd) Hnames].
  destruct (Hnames basename (in_elt _ _ _)) as (c & tail & -> & Hc).
  eapply path_join_plain; eassumption.
Qed.
End DevicePaths.

Lemma find_device_file_path_witness :
  exists root dirs files basename,
    In (root, dirs, files) (Dev.tree (u "/dev"))
    /\ In basename files
    /\ Dev.glob basename (u "ptmx") = true
    /\ u "/dev/pts/ptmx" = root ++ u "/" ++ basename.
Proof.
  apply (find_device_file_path Dev.glob Dev.tree (u "ptmx")
           (u "/dev/pts/ptmx")).
  - intros root dirs files Hw.
    cbn in Hw. destruct Hw as [Hw|[Hw|[]]]; inversion Hw; subst.
    + split.
      * exists (u "/de"), 118%N. split; [reflexivity | discriminate].
      * intros name Hn. cbn in Hn.
        destruct Hn as [<-|[<-|[<-|[]]]]; eexists _, _;
          (split; [reflexivity | discriminate]).
    + split.
      * exists (u "/dev/pt"), 115%N. split; [reflexivity | discriminate].
      * intros name Hn. cbn in Hn.
        destruct Hn as [<-|[<-|[]]]; eexists _, _;
          (split; [reflexivity | discriminate]).
  - reflexivity.
Defined.

(** ** How many calls a batch makes *)

Section Cost.
Variable World : Type.
Variable h : forall X, call X -> World -> outcome X * World.

Lemma at_most_ret {A} n (a : A) : at_most h n (Ret a).
Proof. intros w o w' t H. inversion H. cbn. lia. Qed.

Lemma at_most_mono {A} n m (p : prog A) :
  (n <= m)%nat -> at_most h n p -> at_most h m p.
Proof. intros Hle Hp w o w' t H. apply Hp in H. lia. Qed.

Lemma at_most_bind {A B} n m (p : prog A) (f : A -> prog B) :
  at_most h n p -> (forall a, at_most h m (f a)) ->
  at_most h (n + m) (bind p f).
Proof.
  intros Hp Hf w o w' t. rewrite exec_bind.
  destruct (exec h p w) as [[[a|e] w1] t1] eqn:E; cbn [and_then].
  - destruct (exec h (f a) w1) as [[o2 w2] t2] eqn:E2.
    intros H. inversion H; subst. rewrite length_app.
    apply Hp in E. apply Hf in E2. lia.
  - intros H. inversion H; subst. apply Hp in E. lia.
Qed.

Lemma at_most_sysctl_read name : at_most h 1 (sysctl_read name).
Proof.
  intros w o w' t H. apply sysctl_read_log in H. subst t. cbn. lia.
Qed.

Lemma at_most_sysctl_write name value :
  at_most h 3 (sysctl_write name value).
Proof.
  intros w o w' t. rewrite exec_sysctl_write.
  destruct (exec h (sysctl_read name) w) as [[[cur|e] w1] t1] eqn:E1;
    apply at_most_sysctl_read in E1;
    [|intros H; inversion H; subst; lia].
  destruct (str_eqb cur (to_str value));
    [intros H; inversion H; subst; lia|].
  destruct (h _ (spawn (set_args name (to_str value)) false) w1)
    as [[cp|e] w2];
    [|intros H; inversion H; subst; rewrite length_app; cbn; lia].
  destruct (negb (returncode cp =? 0));
    [intros H; inversion H; subst; rewrite length_app; cbn; lia|].
  destruct (exec h (sysctl_read name) w2) as [[[new|e] w3] t3] eqn:E3;
    apply at_most_sysctl_read in E3;
    intros H; inversion H; subst; rewrite length_app; cbn; lia.
Qed.

Lemma at_most_for_in {X S} n (xs : list X) (body : X -> S -> prog S) s :
  (forall x s', at_most h n (body x s')) ->
  at_most h (List.length xs * n) (for_in xs body s).
Proof.
  intros Hb. revert s. induction xs as [|x xs IH]; intros s;
    cbn [for_in List.length Nat.mul].
  - apply at_most_ret.
  - apply at_most_bind; [apply Hb | intros s'; apply IH].
Qed.

Lemma at_most_snapshot sysctl_dict :
  at_most h (List.length sysctl_dict) (snapshot sysctl_dict).
Proof.
  unfold snapshot.
  eapply at_most_mono;
    [|apply (at_most_for_in 1); intros name acc;
      eapply at_most_mono;
      [|apply (at_most_bind 1 0);
        [apply at_most_sysctl_read | intros; apply at_most_ret]]; lia].
  unfold keys. rewrite length_map. lia.
Qed.

Lemma at_most_write_all its :
  at_most h (3 * List.length its) (write_all its).
Proof.
  induction its as [|[k v] its IH]; cbn [write_all].
  - apply at_most_ret.
  - eapply at_most_mono;
      [|apply (at_most_bind 3 (3 * List.length its));
        [apply at_most_sysctl_write|]].
    + cbn [List.length]. lia.
    + intros [|]; [exact IH | apply at_most_ret].
Qed.

(** Without rollback: one read per key, then at most three calls per
    key. *)
Lemma at_most_apply_norevert sysctl_dict :
  at_most h (4 * List.length sysctl_dict) (sysctl_apply sysctl_dict false).
Proof.
  intros w o w' t. rewrite exec_apply_norevert.
  eapply at_most_mono;
    [|apply (at_most_bind (List.length sysctl_dict)
                          (3 * List.length sysctl_dict));
      [apply at_most_snapshot | intros; apply at_most_write_all]].
  lia.
Qed.

Lemma length_setitem {V} (d : dict str V) k v :
  (List.length (setitem d k v) <= S (List.length d))%nat.
Proof.
  induction d as [|[k' v'] d IH]; cbn [setitem List.length]; [lia|].
  destruct (key_eqb k' k); cbn [List.length]; lia.
Qed.

Lemma length_snapshot_of names vals :
  (List.length (snapshot_of names vals) <= List.length names)%nat.
Proof.
  unfold snapshot_of.
  assert (H : forall acc : dict str value,
             (List.length
                (fold_left (fun d '(k, v) => setitem d k (VStr v))
                           (combine names vals) acc)
              <= List.length acc + List.length names)%nat).
  { revert vals. induction names as [|n names IH]; intros vals acc.
    - cbn. lia.
    - destruct vals as [|v vals]; cbn [combine fold_left List.length];
        [lia|].
      specialize (IH vals (setitem acc n (VStr v))).
      pose proof (length_setitem acc n (VStr v)). lia. }
  apply (H []).
Qed.

(** The second loop with rollback: three calls per key, and the
    rollback at most once. *)
Lemma at_most_loop orig its :
  at_most h (3 * List.length its + 4 * List.length orig)
          (for_in_return its (write_or_revert orig true) (Ret true)).
Proof.
  induction its as [|[k v] its IH]; cbn [for_in_return].
  - apply at_most_ret.
  - intros w o w' t. rewrite exec_bind. unfold write_or_revert at 1.
    rewrite exec_bind.
    destruct (exec h (sysctl_write k v) w) as [[[ok|e] w1] t1] eqn:E1;
      apply at_most_sysctl_write in E1; cbn [and_then List.length];
      [|intros H; inversion H; subst; lia].
    destruct ok; cbn [negb exec and_then].
    + rewrite app_nil_r.
      destruct (exec h (for_in_return its _ _) w1) as [[o2 w2] t2] eqn:E2.
      apply IH in E2. intros H. inversion H; subst.
      rewrite length_app. lia.
    + rewrite !exec_bind.
      destruct (exec h (sysctl_apply orig false) w1)
        as [[[r|e] w2] t2] eqn:E2;
        apply at_most_apply_norevert in E2; cbn [and_then exec];
        intros H; inversion H; subst; rewrite ?length_app; cbn; lia.
Qed.

(** X8: A batch of [n] keys makes at most [8 * n] calls to the executor,
    however it ends: [n] for the snapshot, [3 * n] for the writes, and
    [4 * n] for a rollback. *)
Theorem sysctl_apply_at_most sysctl_dict revert w o w' t :
  exec h (sysctl_apply sysctl_dict revert) w = (o, w', t) ->
  (List.length t <= 8 * List.length sysctl_dict)%nat.
Proof.
  destruct revert.
  - rewrite sysctl_apply_body, exec_bind, exec_snapshot.
    destruct (exec h (read_all (keys sysctl_dict)) w)
      as [[[vals|e] w1] t1] eqn:E.
    + assert (Hsnap : exec h (snapshot sysctl_dict) w
                      = (Returned (snapshot_of (keys sysctl_dict) vals),
                         w1, t1))
        by (rewrite exec_snapshot, E; reflexivity).
      apply at_most_snapshot in Hsnap. cbn [and_then]. unfold items.
      destruct (exec h (for_in_return _ _ _) w1) as [[o2 w2] t2] eqn:E2.
      apply at_most_loop in E2.
      pose proof (length_snapshot_of (keys sysctl_dict) vals) as Hlen.
      unfold keys in Hlen at 2. rewrite length_map in Hlen.
      intros H. inversion H; subst. rewrite length_app. lia.
    + assert (Hsnap : exec h (snapshot sysctl_dict) w = (Raised e, w1, t1))
        by (rewrite exec_snapshot, E; reflexivity).
      apply at_most_snapshot in Hsnap. cbn [and_then].
      intros H. inversion H; subst. lia.
  - intros H. apply at_most_apply_norevert in H. lia.
Qed.
End Cost.

Lemma sysctl_apply_at_most_witness : (13 <= 8 * 2)%nat.
Proof.
  apply (sysctl_apply_at_most Stub.kernel Stub.handler Scenario.two_keys
           true Scenario.B_refuses (Returned false)
           (Stub.mkKernel (Stub.store Scenario.B_refuses) [Scenario.B] []
                          [(Scenario.A, b "1"); (Scenario.A, b "0")])
           [query_call Scenario.A; query_call Scenario.B;
            query_call Scenario.A; set_call Scenario.A (u "1");
            query_call Scenario.A;
            query_call Scenario.B; set_call Scenario.B (u "2");
            query_call Scenario.A; query_call Scenario.B;
            query_call Scenario.A; set_call Scenario.A (u "0");
            query_call Scenario.A;
            query_call Scenario.B]).
  vm_compute. reflexivity.
Defined.

(** ** The batch without rollback, on a table of tunables *)

Section TablePartial.
Variable World : Type.
Variable h : forall X, call X -> World -> outcome X * World.
Variable names : list str.
Variable val : World -> str -> str.
Variable accepts : str -> str -> bool.
Hypothesis table : table_like h names val accepts.

(** A write that reports failure found another value than the
    target. *)
Lemma table_write_false k v w w' t :
  In k names ->
  exec h (sysctl_write k v) w = (Returned false, w', t) ->
  val w k <> to_str v.
Proof.
  intros Hk Hw Heq. rewrite exec_sysctl_write in Hw.
  destruct (query_answers table k w Hk) as (wq & Hq & _).
  rewrite Hq, Heq, str_eqb_refl in Hw. discriminate.
Qed.

(** The writes in order stop at the first key that needs a write the
    table refuses: the keys before it held their targets or took them,
    and every other key reads as before. *)
Lemma table_write_all its w :
  incl (keys its) names -> NoDup (keys its) ->
  exists ok w' t,
    exec h (write_all its) w = (Returned ok, w', t)
    /\ (ok = true ->
        forall k v, In (k, v) its ->
          (val w k = to_str v \/ accepts k (to_str v) = true)
          /\ val w' k = to_str v)
    /\ (ok = false ->
        exists pre k v post,
          its = pre ++ (k, v) :: post
          /\ (forall k' v', In (k', v') pre ->
                (val w k' = to_str v' \/ accepts k' (to_str v') = true)
                /\ val w' k' = to_str v')
          /\ val w k <> to_str v
          /\ accepts k (to_str v) = false
          /\ (forall x, In x names -> ~ In x (keys pre) ->
                        val w' x = val w x))
    /\ (forall x, In x names -> ~ In x (keys its) -> val w' x = val w x).
Proof.
  revert w. induction its as [|[k v] its IH]; intros w Hincl Hnd.
  - exists true, w, []. split; [reflexivity|].
    split; [intros _ k v []|]. split; [discriminate | reflexivity].
  - assert (Hk : In k names) by (apply Hincl; left; reflexivity).
    assert (Hits : incl (keys its) names)
      by (intros x Hx; apply Hincl; right; exact Hx).
    cbn [keys List.map fst] in Hnd.
    inversion Hnd as [|? ? Hnotin Hnd']; subst.
    destruct (table_write World h names val accepts table k v w Hk)
      as (ok & w1 & t1 & Hw & Hothers & Hcase).
    cbn [write_all]. rewrite exec_bind, Hw. cbn [and_then].
    assert (Hlater : forall x y, In (x, y) its ->
                                 In x names /\ val w1 x = val w x).
    { intros x y Hxy.
      assert (Hx : In x (keys its))
        by (unfold keys; change x with (fst (x, y)); apply in_map;
            exact Hxy).
      split; [apply Hits; exact Hx|].
      apply Hothers; [apply Hits; exact Hx|].
      intros ->. apply Hnotin. exact Hx. }
    destruct Hcase as [(-> & Hv & Hwhy)|(-> & Hv & Hacc)].
    + destruct (IH w1 Hits Hnd') as (ok & w2 & t2 & Hrest & Htrue & Hfalse
                                     & Hout).
      rewrite Hrest. eexists ok, w2, _. split; [reflexivity|].
      assert (Hkeep : val w2 k = to_str v)
        by (rewrite (Hout k Hk Hnotin); exact Hv).
      split; [|split].
      * intros Hok x y [Hxy|Hxy].
        -- inversion Hxy; subst. split; [exact Hwhy | exact Hkeep].
        -- destruct (Htrue Hok x y Hxy) as [Hwhy' Hat].
           destruct (Hlater x y Hxy) as [_ Hsame].
           rewrite Hsame in Hwhy'. split; assumption.
      * intros Hok.
        destruct (Hfalse Hok) as (pre & k0 & v0 & post & -> & Hpre & Hne0
                                  & Hacc0 & Hrest0).
        exists ((k, v) :: pre), k0, v0, post.
        split; [reflexivity|].
        split; [|split; [|split; [exact Hacc0|]]].
        -- intros x y [Hxy|Hxy].
           ++ inversion Hxy; subst. split; [exact Hwhy | exact Hkeep].
           ++ destruct (Hpre x y Hxy) as [Hwhy' Hat].
              destruct (Hlater x y (in_or_app _ _ _ (or_introl Hxy)))
                as [_ Hsame].
              rewrite Hsame in Hwhy'. split; assumption.
        -- destruct (Hlater k0 v0 (in_elt _ _ _)) as [_ Hsame].
           rewrite <- Hsame. exact Hne0.
        -- intros x Hx Hnot.
           assert (Hne : x <> k)
             by (intros ->; apply Hnot; left; reflexivity).
           rewrite (Hrest0 x Hx), (Hothers x Hx Hne); [reflexivity|].
           intros Hin. apply Hnot. right. exact Hin.
      * intros x Hx Hnot.
        assert (Hne : x <> k)
          by (intros ->; apply Hnot; left; reflexivity).
        rewrite (Hout x Hx), (Hothers x Hx Hne); [reflexivity|].
        intros Hin. apply Hnot. right. exact Hin.
    + assert (Hu1 : forall x, In x names -> val w1 x = val w x).
      { intros x Hx. destruct (list_eq_dec N.eq_dec x k) as [->|Hne];
          [exact Hv | apply Hothers; assumption]. }
      cbn [exec]. eexists false, w1, _. split; [reflexivity|].
      split; [discriminate|]. split.
      * intros _. exists [], k, v, its. split; [reflexivity|].
        split; [intros k' v' []|].
        split; [eapply table_write_false; eassumption|].
        split; [exact Hacc|].
        intros x Hx _. apply Hu1. exact Hx.
      * intros x Hx _. apply Hu1. exact Hx.
Qed.
End TablePartial.

(** X7: On a table of tunables a batch with [revert=False] stops at the
    first key that needs a write the table refuses (its value differs from
    its target, and the table refuses the target) and returns false: every
    key before it held its target already or took it and reads as its
    target, the refused key and the keys after it read as before the
    batch.  When no key needs a refused write it returns true with every
    key at its target. *)
Theorem sysctl_apply_norevert_partial World
    (h : forall X, call X -> World -> outcome X * World)
    (val : World -> str -> str) (accepts : str -> str -> bool)
    (sysctl_dict : dict str value) (w : World) :
  table_like h (keys sysctl_dict) val accepts ->
  NoDup (keys sysctl_dict) ->
  exists ok w' t,
    exec h (sysctl_apply sysctl_dict false) w = (Returned ok, w', t)
    /\ (ok = true ->
        forall k v, In (k, v) sysctl_dict ->
          (val w k = to_str v \/ accepts k (to_str v) = true)
          /\ val w' k = to_str v)
    /\ (ok = false ->
        exists pre k v post,
          sysctl_dict = pre ++ (k, v) :: post
          /\ (forall k' v', In (k', v') pre ->
                (val w k' = to_str v' \/ accepts k' (to_str v') = true)
                /\ val w' k' = to_str v')
          /\ val w k <> to_str v
          /\ accepts k (to_str v) = false
          /\ val w' k = val w k
          /\ (forall k' v', In (k', v') post -> val w' k' = val w k')).
Proof.
  intros Htable Hnd.
  destruct (table_read_all World h _ val accepts Htable
              (keys sysctl_dict) w (incl_refl _))
    as (w1 & t1 & Hread & Hu1).
  pose proof (exec_snapshot_nodup World h sysctl_dict w _ w1 t1 Hnd Hread)
    as Hsnap.
  destruct (table_write_all World h _ val accepts Htable sysctl_dict w1
              (incl_refl _) Hnd)
    as (ok & w2 & t2 & Hall & Htrue & Hfalse & _).
  assert (Hkey : forall x y, In (x, y) sysctl_dict ->
                             In x (keys sysctl_dict)).
  { intros x y Hxy. unfold keys. change x with (fst (x, y)).
    apply in_map. exact Hxy. }
  rewrite exec_apply_norevert, exec_bind, Hsnap. cbn [and_then].
  rewrite Hall. eexists ok, w2, _. split; [reflexivity|]. split.
  { intros Hok k v Hkv. destruct (Htrue Hok k v Hkv) as [Hwhy Hat].
    rewrite (Hu1 k (Hkey k v Hkv)) in Hwhy. split; assumption. }
  intros Hok.
  destruct (Hfalse Hok) as (pre & k & v & post & Hd & Hpre & Hne & Hacc
                            & Hrest).
  exists pre, k, v, post. split; [exact Hd|].
  assert (Hkeys : keys sysctl_dict = keys pre ++ k :: keys post).
  { rewrite Hd. unfold keys. rewrite map_app. reflexivity. }
  assert (Hin : forall x, In x (k :: keys post) ->
                          In x (keys sysctl_dict) /\ ~ In x (keys pre)).
  { intros x Hx. split.
    - rewrite Hkeys. apply in_or_app. right. exact Hx.
    - intros Hpre'. rewrite Hkeys in Hnd. revert Hnd Hx Hpre'. clear.
      induction (keys pre) as [|y ys IH]; cbn; intros Hnd Hx [].
      + subst y. inversion Hnd as [|? ? Hnot _]; subst.
        apply Hnot. apply in_or_app. right. exact Hx.
      + inversion Hnd; subst. apply IH; assumption. }
  destruct (Hin k (or_introl eq_refl)) as [Hk Hnotk].
  split; [|split; [|split; [exact Hacc|split]]].
  - intros k' v' Hkv. destruct (Hpre k' v' Hkv) as [Hwhy Hat].
    assert (Hk' : In k' (keys sysctl_dict)).
    { apply (Hkey k' v'). rewrite Hd. apply in_or_app. left. exact Hkv. }
    rewrite (Hu1 k' Hk') in Hwhy. split; assumption.
  - rewrite <- (Hu1 k Hk). exact Hne.
  - rewrite (Hrest k Hk Hnotk). apply Hu1. exact Hk.
  - intros k' v' Hpost.
    assert (Hk' : In k' (k :: keys post)).
    { right. unfold keys. change k' with (fst (k', v')). apply in_map.
      exact Hpost. }
    destruct (Hin k' Hk') as [Hk'' Hnot].
    rewrite (Hrest k' Hk'' Hnot). apply Hu1. exact Hk''.
Qed.

Lemma table_like_same_keys {World}
    (h : forall X, call X -> World -> outcome X * World)
    names names' val accepts :
  (forall k, In k names' <-> In k names) ->
  table_like h names val accepts -> table_like h names' val accepts.
Proof.
  intros Hsame [Hq Hok Hno].
  assert (Hu : forall w w', unchanged val names w w' ->
                            unchanged val names' w w').
  { intros w w' H k Hk. apply H. apply Hsame. exact Hk. }
  constructor.
  - intros k w Hk. destruct (Hq k w (proj1 (Hsame k) Hk)) as (w' & H1 & H2).
    exists w'. split; [exact H1 | apply Hu; exact H2].
  - intros k v w Hk Ha.
    destruct (Hok k v w (proj1 (Hsame k) Hk) Ha)
      as (cp & w' & H1 & H2 & H3 & H4).
    exists cp, w'. repeat split; try assumption.
    intros k' Hk' Hne. apply H4; [apply Hsame; exact Hk' | exact Hne].
  - intros k v w Hk Ha.
    destruct (Hno k v w (proj1 (Hsame k) Hk) Ha) as (cp & w' & H1 & H2 & H3).
    exists cp, w'. repeat split; try assumption. apply Hu. exact H3.
Qed.

Lemma sysctl_apply_norevert_partial_witness :
  exists w' t pre v post,
    exec Switch.handler (sysctl_apply Scenario.keep_then_refuse false) false
    = (Returned false, w', t)
    /\ Scenario.keep_then_refuse = pre ++ (Scenario.A, v) :: post
    /\ Switch.val false Scenario.A <> to_str v
    /\ Switch.accepts Scenario.A (to_str v) = false.
Proof.
  destruct (sysctl_apply_norevert_partial bool Switch.handler
              Switch.val Switch.accepts Scenario.keep_then_refuse false)
    as (ok & w' & t & Hexec & _ & Hfalse).
  - apply (table_like_same_keys Switch.handler
             [Scenario.A; Scenario.B]); [|exact switch_is_a_table].
    intros k. cbn. tauto.
  - vm_compute. repeat constructor; cbn [In]; intuition discriminate.
  - assert (Hok : ok = false).
    { destruct ok; [|reflexivity]. vm_compute in Hexec. discriminate. }
    subst ok.
    destruct (Hfalse eq_refl)
      as (pre & k & v & post & Hd & _ & Hne & Hacc & _).
    destruct pre as [|x [|y pre]]; inversion Hd; subst.
    + exfalso. apply Hne. reflexivity.
    + eexists w', t, [(Scenario.B, VStr (u "7"))], _, _.
      split; [exact Hexec|]. split; [reflexivity|].
      split; [exact Hne | exact Hacc].
    + destruct pre; discriminate.
Defined.

(** ** Integers sent as decimal strings *)

Lemma digits_of_uint (d : Decimal.uint) :
  forallb is_digit (u (NilEmpty.string_of_uint d)) = true.
Proof.
  induction d; cbn [NilEmpty.string_of_uint]; [reflexivity| ..];
    rewrite u_cons; cbn [forallb]; rewrite IHd; reflexivity.
Qed.

Lemma nzhead_no_leading_zero (d d' : Decimal.uint) :
  Decimal.nzhead d <> Decimal.D0 d'.
Proof.
  induction d; cbn [Decimal.nzhead]; try discriminate. exact IHd.
Qed.

(** The decimal form of a positive number does not start with 0. *)
Lemma to_uint_no_leading_zero (p : positive) (d : Decimal.uint) :
  Pos.to_uint p <> Decimal.D0 d.
Proof.
  intros H.
  pose proof (DecimalPos.Unsigned.to_of (Pos.to_uint p)) as Hnorm.
  rewrite DecimalPos.Unsigned.of_to in Hnorm. cbn [N.to_uint] in Hnorm.
  rewrite H in Hnorm. unfold Decimal.unorm in Hnorm.
  cbn [Decimal.nzhead] in Hnorm.
  destruct (Decimal.nzhead d) eqn:E; try discriminate.
  - inversion Hnorm; subst.
    apply (DecimalPos.Unsigned.to_uint_nonzero p). exact H.
  - apply (nzhead_no_leading_zero d u0). rewrite E. reflexivity.
Qed.

Lemma positive_is_positive_decimal (p : positive) :
  is_positive_decimal (u (NilZero.string_of_uint (Pos.to_uint p))) = true.
Proof.
  pose proof (to_uint_no_leading_zero p) as Hz.
  pose proof (DecimalPos.Unsigned.to_uint_nonnil p) as Hnil.
  destruct (Pos.to_uint p) as [|d|d|d|d|d|d|d|d|d|d] eqn:E;
    [congruence | exfalso; apply (Hz d); reflexivity | ..];
    cbn [NilZero.string_of_uint NilEmpty.string_of_uint];
    rewrite u_cons; cbn [is_positive_decimal];
    rewrite digits_of_uint; reflexivity.
Qed.

(** [str(n)] is the canonical decimal form of [n]. *)
Lemma str_of_int_canonical (n : Z) :
  is_canonical_decimal (str_of_int n) = true.
Proof.
  unfold str_of_int. destruct n as [|p|p]; [reflexivity| |];
    cbn [Z.to_int NilZero.string_of_int];
    pose proof (positive_is_positive_decimal p) as Hp.
  - destruct (u (NilZero.string_of_uint (Pos.to_uint p))) as [|c r] eqn:E;
      [discriminate|].
    unfold is_canonical_decimal.
    cbn [is_positive_decimal] in Hp.
    apply andb_true_iff in Hp. destruct Hp as [Hc Hr].
    apply andb_true_iff in Hc. destruct Hc as [Hlo Hhi].
    apply N.leb_le in Hlo.
    replace (c =? 45)%N with false by (symmetry; apply N.eqb_neq; lia).
    replace (c =? 48)%N with false by (symmetry; apply N.eqb_neq; lia).
    cbn [is_positive_decimal]. rewrite Hr, Hhi.
    apply N.leb_le in Hlo. rewrite Hlo. reflexivity.
  - rewrite u_cons. unfold is_canonical_decimal.
    change (N_of_ascii "-" =? 45)%N with true. cbv iota. exact Hp.
Qed.

(** C7: for every integer [n] and every executor, [write(K, n)] compares
    what it reads with [str(n)] and, when they differ, sends the
    set-command [K=str(n)] and compares the value read again with
    [str(n)]; every read is one query of [K]; [str(n)] is the canonical
    decimal form of [n].  On a kernel
    where [A] holds ["0"], [write(A, 5)] sends [A=5], and on one where [A]
    holds ["5"] it sends nothing. *)
Theorem sysctl_write_int World
    (h : forall X, call X -> World -> outcome X * World)
    (name : str) (n : Z) (w : World) :
  exec h (sysctl_write name (VInt n)) w
  = match exec h (sysctl_read name) w with
    | (Raised e, w1, t1) => (Raised e, w1, t1)
    | (Returned cur, w1, t1) =>
      if str_eqb cur (str_of_int n) then (Returned true, w1, t1)
      else
        match h _ (spawn [u "sysctl"; u "-wq";
                          name ++ u "=" ++ str_of_int n] false) w1 with
        | (Raised e, w2) =>
          (Raised e, w2, t1 ++ [set_call name (str_of_int n)])
        | (Returned cp, w2) =>
          if negb (returncode cp =? 0)
          then (Returned false, w2, t1 ++ [set_call name (str_of_int n)])
          else
            match exec h (sysctl_read name) w2 with
            | (Raised e, w3, t3) =>
              (Raised e, w3, t1 ++ set_call name (str_of_int n) :: t3)
            | (Returned new, w3, t3) =>
              (Returned (str_eqb new (str_of_int n)), w3,
               t1 ++ set_call name (str_of_int n) :: t3)
            end
        end
    end
  /\ snd (exec h (sysctl_read name) w) = [query_call name]
  /\ is_canonical_decimal (str_of_int n) = true
  /\ decimal_value (str_of_int n) = Some n
  /\ str_of_int 5 = u "5"
  /\ exec Stub.handler (sysctl_write Scenario.A (VInt 5)) Scenario.A_is_0
     = (Returned true,
        Stub.mkKernel [(Scenario.A, b "5")] [] [] [(Scenario.A, b "5")],
        [query_call Scenario.A; set_call Scenario.A (u "5");
         query_call Scenario.A])
  /\ exec Stub.handler (sysctl_write Scenario.A (VInt 5))
          (Stub.mkKernel [(Scenario.A, b "5")] [] [] [])
     = (Returned true, Stub.mkKernel [(Scenario.A, b "5")] [] [] [],
        [query_call Scenario.A]).
Proof.
  split; [apply exec_sysctl_write|].
  split.
  { destruct (exec h (sysctl_read name) w) as [[o w1] t1] eqn:E.
    apply sysctl_read_log in E. exact E. }
  split; [apply str_of_int_canonical|].
  split; [apply decimal_value_str_of_int|].
  split; [reflexivity|].
  split; vm_compute; reflexivity.
Qed.
